(** * PocketIC client library (pic-js): protocol codec and process supervisor

    A shallow embedding of the request/response codec of the PocketIC client
    and of the server process supervisor ([pocket-ic-server.ts]), followed by
    the properties that the design document states about them.

    Conventions.
    - A TypeScript function that can [throw] returns a [Result]; [Throw e]
      is the exception [e] leaving the function.
    - An optional field or argument ([x?: T], [T | null]) is an [option T];
      [None] stands for both [undefined] and [null], which the code never
      tells apart (it only uses [isNil], [??] and [=== false/true]).
    - A JavaScript [number] is a binary64 value, see [JsNumber].
    - The source is organised in [//#region]s; each region is a [Module]. *)

From Stdlib Require Import ZArith NArith QArith Qround Qabs Qcanon Qpower.
From Stdlib Require Import Lia List String Ascii Bool DecimalString.
From Stdlib Require Import PrimFloat FloatOps SpecFloat.
From Stdlib.Strings Require Import Byte.
Import ListNotations.

Close Scope Qc_scope.
Close Scope Q_scope.
Local Open Scope string_scope.

(* ================================================================== *)
(** * Part I. Definitions *)
(* ================================================================== *)

(** ** Exceptions and fallible computations *)

(** The exception values that the embedded code can raise. *)
Inductive JsError : Type :=
| Error (message : string)       (* new Error(message) *)
| TopologyValidationError        (* new TopologyValidationError() *)
| BinTimeoutError                (* new BinTimeoutError() *)
| BinNotFoundError (binPath : string)  (* new BinNotFoundError(binPath) *)
| BinStartError                  (* new BinStartError(error) *)
| BinStartMacOSArmError          (* new BinStartMacOSArmError(error) *)
| MalformedTextError.            (* the identifier codec's rejection of malformed text *)

Inductive Result (A : Type) : Type :=
| Return (value : A)
| Throw (e : JsError).

Arguments Return {A} value.
Arguments Throw {A} e.

Definition bind {A B : Type} (r : Result A) (k : A -> Result B) : Result B :=
  match r with
  | Return a => k a
  | Throw e => Throw e
  end.

Notation "x <- r ;; k" := (bind r (fun x => k))
  (at level 61, r at next level, right associativity).

(** [Array.prototype.map] with a callback that may throw: the elements are
    visited from left to right and the first exception aborts the loop. *)
Fixpoint mapM {A B : Type} (f : A -> Result B) (xs : list A) : Result (list B) :=
  match xs with
  | [] => Return []
  | x :: rest =>
      y <- f x ;;
      ys <- mapM f rest ;;
      Return (y :: ys)
  end.

(** Modelled from the spec: [isNil] and [isNotNil] of [./util], which is not
    part of the sources at hand; they test for absence ([null]/[undefined]). *)
Definition isNil {A : Type} (value : option A) : bool :=
  match value with
  | None => true
  | Some _ => false
  end.

Definition isNotNil {A : Type} (value : option A) : bool := negb (isNil value).

(** The elements of an array from which [filter(isNotNil)] has removed the
    nil ones, at the type without nil that TypeScript gives the result. *)
Definition present {A : Type} (xs : list (option A)) : list A :=
  flat_map (fun x => match x with
                     | Some a => [a]
                     | None => []
                     end) xs.

(** ** JavaScript numbers

    A [number] is an IEEE 754 binary64 value.  Finite values are kept as exact
    rationals; every arithmetic operation computes the exact rational result
    and rounds it to the nearest binary64 value, ties to even, as IEEE 754
    prescribes.  The two zeros are identified ([-0 === 0] in JavaScript).
    [Num q] stands for a number when [q] is [representable]. *)
Module JsNumber.

Inductive number : Type :=
| Num (q : Qc)
| NaN
| PosInf
| NegInf.

(** [two_pow e] is 2^e for any integer [e]. *)
Definition two_pow (e : Z) : Q := Qpower (2 # 1) e.

(** [ilog2 q] is the integer [k] with 2^k <= q < 2^(k+1), for [q > 0]. *)
Definition ilog2 (q : Q) : Z :=
  let k := (Z.log2 (Qnum q) - Z.log2 (Zpos (Qden q)))%Z in
  if Qle_bool (two_pow k) q then k else (k - 1)%Z.

(** The integer nearest to [q]; a tie goes to the even neighbour. *)
Definition round_half_even (q : Q) : Z :=
  let f := Qfloor q in
  match Qcompare (q - inject_Z f) (1 # 2) with
  | Lt => f
  | Gt => (f + 1)%Z
  | Eq => if Z.even f then f else (f + 1)%Z
  end.

(** The exponent of the unit in the last place of the binary64 values around
    [q]: 53 significant bits, and never below the subnormal spacing 2^-1074. *)
Definition ulp_exponent (q : Q) : Z :=
  Z.max (ilog2 (Qabs q) - 52) (-1074).

Definition round_unbounded (q : Q) : Q :=
  if Qeq_bool q 0 then 0%Q
  else
    let e := ulp_exponent q in
    (inject_Z (round_half_even (q / two_pow e)) * two_pow e)%Q.

(** [Number.MAX_VALUE] = (2^53 - 1) * 2^971. *)
Definition MAX_VALUE : Q := (inject_Z (2 ^ 53 - 1) * two_pow 971)%Q.

(** Rounding of an exact result to a [number]; magnitudes beyond
    [MAX_VALUE] overflow to an infinity. *)
Definition round64 (q : Q) : number :=
  let r := round_unbounded q in
  if Qle_bool (Qabs r) MAX_VALUE then Num (Q2Qc r)
  else if Qle_bool 0 r then PosInf else NegInf.

(** A rational is representable when rounding leaves it unchanged. *)
Definition representable (q : Qc) : Prop := round64 q = Num q.

Definition is_zero (q : Qc) : bool := Qeq_bool q 0.
Definition is_neg (q : Qc) : bool := negb (Qle_bool 0 q).

(** [a * b] *)
Definition mul (a b : number) : number :=
  match a, b with
  | NaN, _ | _, NaN => NaN
  | Num x, Num y => round64 (x * y)%Qc
  | Num x, PosInf | PosInf, Num x =>
      if is_zero x then NaN else if is_neg x then NegInf else PosInf
  | Num x, NegInf | NegInf, Num x =>
      if is_zero x then NaN else if is_neg x then PosInf else NegInf
  | PosInf, PosInf | NegInf, NegInf => PosInf
  | PosInf, NegInf | NegInf, PosInf => NegInf
  end.

(** [a / b] *)
Definition div (a b : number) : number :=
  match a, b with
  | NaN, _ | _, NaN => NaN
  | Num x, Num y =>
      if is_zero y then
        if is_zero x then NaN else if is_neg x then NegInf else PosInf
      else round64 (x / y)%Qc
  | Num _, PosInf | Num _, NegInf => Num 0%Qc
  | PosInf, Num y => if is_neg y then NegInf else PosInf
  | NegInf, Num y => if is_neg y then PosInf else NegInf
  | PosInf, PosInf | PosInf, NegInf | NegInf, PosInf | NegInf, NegInf => NaN
  end.

(** The global [isNaN]. *)
Definition isNaN (x : number) : bool :=
  match x with
  | NaN => true
  | _ => false
  end.

(** The number denoted by an integer literal or by a parsed integer. *)
Definition of_Z (z : Z) : number := round64 (inject_Z z).

Definition Qc_of_Z (z : Z) : Qc := Q2Qc (inject_Z z).

(** The number that a binary64 datum of the kernel denotes; it serves to
    compare [mul] and [div] with the hardware operations. *)
Definition of_float (f : float) : number :=
  match Prim2SF f with
  | S754_zero _ => Num (Qc_of_Z 0)
  | S754_infinity s => if s then NegInf else PosInf
  | S754_nan => NaN
  | S754_finite s m e =>
      Num (Q2Qc ((if s then inject_Z (-1) else inject_Z 1)
                 * inject_Z (Zpos m) * two_pow e)%Q)
  end.

Definition number_eqb (a b : number) : bool :=
  match a, b with
  | Num x, Num y => Qeq_bool x y
  | PosInf, PosInf | NegInf, NegInf => true
  | _, _ => false
  end.

(** *** [Number::toString]

    ECMAScript prints a finite positive [x] from the integers [n], [k], [s]
    with [10^(k-1) <= s < 10^k], such that [s * 10^(n-k)] rounds to [x] and
    [k] is as small as possible (the closest [s] when several fit, the even
    one on a tie). *)

Definition string_of_Z (z : Z) : string := NilZero.string_of_int (Z.to_int z).

Definition pow10 (e : Z) : Q := Qpower (10 # 1) e.

(** The integer [e] with 10^e <= x < 10^(e+1), for [x > 0]: an estimate from
    the binary logarithm, corrected by at most two steps either way. *)
Definition ilog10 (x : Q) : Z :=
  let e := ((ilog2 x * 30103) / 100000)%Z in
  let e := if Qle_bool (pow10 (e + 1)) x then (e + 1)%Z else e in
  let e := if Qle_bool (pow10 (e + 1)) x then (e + 1)%Z else e in
  let e := if Qle_bool (pow10 e) x then e else (e - 1)%Z in
  if Qle_bool (pow10 e) x then e else (e - 1)%Z.

Definition candidates (x : Q) (k n : Z) : list Z :=
  let scale := pow10 (n - k) in
  let fl := Qfloor (x / scale) in
  filter (fun s => (10 ^ (k - 1) <=? s)%Z && (s <? 10 ^ k)%Z
                   && number_eqb (round64 (inject_Z s * scale)) (round64 x))
         [fl; (fl + 1)%Z].

Definition closest (x : Q) (k n : Z) (ss : list Z) : option Z :=
  let scale := pow10 (n - k) in
  let dist s := Qabs (inject_Z s * scale - x) in
  match ss with
  | [] => None
  | [s] => Some s
  | s1 :: s2 :: _ =>
      match Qcompare (dist s1) (dist s2) with
      | Lt => Some s1
      | Gt => Some s2
      | Eq => if Z.even s1 then Some s1 else Some s2
      end
  end.

(** Seventeen significant digits always identify a binary64 value, so the
    search for [k] is bounded. *)
Fixpoint shortest (fuel : nat) (x : Q) (k n0 : Z) : option (Z * Z * Z) :=
  match closest x k n0 (candidates x k n0) with
  | Some s => Some (s, k, n0)
  | None =>
      match closest x k (n0 + 1) (candidates x k (n0 + 1)) with
      | Some s => Some (s, k, (n0 + 1)%Z)
      | None =>
          match fuel with
          | O => None
          | S fuel' => shortest fuel' x (k + 1) n0
          end
      end
  end.

Fixpoint zeros (n : nat) : string :=
  match n with
  | O => ""
  | S n' => String "0" (zeros n')
  end.

Definition format_positive (x : Q) : string :=
  match shortest 17 x 1 (ilog10 x + 1) with
  | None => ""
  | Some (s, k, n) =>
      let digits := string_of_Z s in
      if (k <=? n)%Z && (n <=? 21)%Z then
        digits ++ zeros (Z.to_nat (n - k))
      else if (0 <? n)%Z && (n <=? 21)%Z then
        substring 0 (Z.to_nat n) digits ++ "."
          ++ substring (Z.to_nat n) (Z.to_nat (k - n)) digits
      else if (-6 <? n)%Z && (n <=? 0)%Z then
        "0." ++ zeros (Z.to_nat (- n)) ++ digits
      else
        let e := (n - 1)%Z in
        let mantissa :=
          if (k =? 1)%Z then digits
          else substring 0 1 digits ++ "."
                 ++ substring 1 (Z.to_nat (k - 1)) digits in
        mantissa ++ "e" ++ (if (e <? 0)%Z then "-" else "+")
          ++ string_of_Z (Z.abs e)
  end.

(** An integer whose magnitude is at most 2^53 is printed as its decimal
    numeral, which is what the digit search yields for it. *)
Definition is_safe_integer (q : Q) : bool :=
  Qeq_bool q (inject_Z (Qfloor q)) && Qle_bool (Qabs q) (inject_Z (2 ^ 53)).

Definition Number_toString (x : number) : string :=
  match x with
  | NaN => "NaN"
  | PosInf => "Infinity"
  | NegInf => "-Infinity"
  | Num q =>
      if is_safe_integer q then string_of_Z (Qfloor q)
      else if Qle_bool 0 q then format_positive q
      else "-" ++ format_positive (Qopp q)
  end.

(** *** The global [parseInt], called with a string and no radix

    Leading white space is skipped, then an optional sign and an optional
    [0x]/[0X] prefix (which selects radix 16 instead of 10); the longest
    prefix of digits is the value, and [NaN] is returned when there is no
    digit.  Strings are sequences of ASCII characters here, so the white
    space is tab, line feed, vertical tab, form feed, carriage return and
    space. *)

Definition isWhiteSpace (c : ascii) : bool :=
  let k := N_of_ascii c in
  ((9 <=? k) && (k <=? 13))%N || (k =? 32)%N.

Fixpoint trimStart (s : string) : string :=
  match s with
  | String c rest => if isWhiteSpace c then trimStart rest else s
  | "" => ""
  end.

Definition digitValue (c : ascii) : option Z :=
  let k := Z.of_N (N_of_ascii c) in
  if ((48 <=? k) && (k <=? 57))%Z then Some (k - 48)%Z
  else if ((97 <=? k) && (k <=? 122))%Z then Some (k - 97 + 10)%Z
  else if ((65 <=? k) && (k <=? 90))%Z then Some (k - 65 + 10)%Z
  else None.

(** The value of the longest prefix of radix-[radix] digits of [s];
    [acc] is the value of the digits read so far, if any. *)
Fixpoint parseDigits (radix : Z) (s : string) (acc : option Z) : option Z :=
  match s with
  | String c rest =>
      match digitValue c with
      | Some d =>
          if (d <? radix)%Z then
            parseDigits radix rest
              (Some (radix * match acc with Some a => a | None => 0 end + d)%Z)
          else acc
      | None => acc
      end
  | "" => acc
  end.

Definition parseInt (s : string) : number :=
  let s := trimStart s in
  let '(sign, s) :=
    match s with
    | String "-" rest => ((-1)%Z, rest)
    | String "+" rest => (1%Z, rest)
    | _ => (1%Z, s)
    end in
  let '(radix, s) :=
    match s with
    | String "0" (String "x" rest) | String "0" (String "X" rest) =>
        (16%Z, rest)
    | _ => (10%Z, s)
    end in
  match parseDigits radix s None with
  | None => NaN
  | Some n => of_Z (sign * n)
  end.

End JsNumber.

Import JsNumber.

(** ** Identifier codec ([./util])

    [Uint8Array]s are lists of bytes.  A [Principal] of [@dfinity/principal]
    wraps its raw bytes ([Principal.fromUint8Array], [toUint8Array]). *)

Definition Uint8Array : Type := list byte.

Record Principal : Type := fromUint8Array { toUint8Array : Uint8Array }.

Module Base64.

Local Open Scope N_scope.

(** The RFC 4648 alphabet: [A-Z], [a-z], [0-9], [+], [/]. *)
Definition char_of_sextet (n : N) : ascii :=
  if n <? 26 then ascii_of_N (65 + n)
  else if n <? 52 then ascii_of_N (97 + (n - 26))
  else if n <? 62 then ascii_of_N (48 + (n - 52))
  else if n =? 62 then "+"%char
  else "/"%char.

Definition sextet_of_char (c : ascii) : option N :=
  let k := N_of_ascii c in
  if (65 <=? k) && (k <=? 90) then Some (k - 65)
  else if (97 <=? k) && (k <=? 122) then Some (k - 97 + 26)
  else if (48 <=? k) && (k <=? 57) then Some (k - 48 + 52)
  else if k =? 43 then Some 62
  else if k =? 47 then Some 63
  else None.

Definition pad : ascii := "="%char.

(** Three bytes are 24 bits, cut into four groups of six. *)
Definition sextets_of_bytes (a b c : N) : N * N * N * N :=
  (a / 4, (a mod 4) * 16 + b / 16, (b mod 16) * 4 + c / 64, c mod 64).

Definition bytes_of_sextets (s1 s2 s3 s4 : N) : N * N * N :=
  (s1 * 4 + s2 / 16, (s2 mod 16) * 16 + s3 / 4, (s3 mod 4) * 64 + s4).

Definition byte_of_N (n : N) : byte :=
  match Byte.of_N n with
  | Some b => b
  | None => x00
  end.

End Base64.

(** Modelled from the spec: [base64Encode] of [./util], which is not part of
    the sources at hand.  The spec asks for the canonical base64 text of a
    byte sequence; this is RFC 4648 with padding. *)
Fixpoint base64Encode (payload : Uint8Array) : string :=
  match payload with
  | [] => ""
  | [a] =>
      let '(s1, s2, _, _) := Base64.sextets_of_bytes (Byte.to_N a) 0 0 in
      String (Base64.char_of_sextet s1) (String (Base64.char_of_sextet s2)
        (String Base64.pad (String Base64.pad "")))
  | [a; b] =>
      let '(s1, s2, s3, _) :=
        Base64.sextets_of_bytes (Byte.to_N a) (Byte.to_N b) 0 in
      String (Base64.char_of_sextet s1) (String (Base64.char_of_sextet s2)
        (String (Base64.char_of_sextet s3) (String Base64.pad "")))
  | a :: b :: c :: rest =>
      let '(s1, s2, s3, s4) :=
        Base64.sextets_of_bytes (Byte.to_N a) (Byte.to_N b) (Byte.to_N c) in
      String (Base64.char_of_sextet s1) (String (Base64.char_of_sextet s2)
        (String (Base64.char_of_sextet s3) (String (Base64.char_of_sextet s4)
          (base64Encode rest))))
  end.

(** The last group of a base64 text, which may end in one or two [=]. *)
Definition base64DecodeLast (c1 c2 c3 c4 : ascii) : Result Uint8Array :=
  match Base64.sextet_of_char c1, Base64.sextet_of_char c2 with
  | Some s1, Some s2 =>
      if Ascii.eqb c4 Base64.pad then
        if Ascii.eqb c3 Base64.pad then
          (* one byte; the four spare bits must be zero *)
          if (s2 mod 16 =? 0)%N then
            let '(a, _, _) := Base64.bytes_of_sextets s1 s2 0 0 in
            Return [Base64.byte_of_N a]
          else Throw MalformedTextError
        else
          match Base64.sextet_of_char c3 with
          | Some s3 =>
              (* two bytes; the two spare bits must be zero *)
              if (s3 mod 4 =? 0)%N then
                let '(a, b, _) := Base64.bytes_of_sextets s1 s2 s3 0 in
                Return [Base64.byte_of_N a; Base64.byte_of_N b]
              else Throw MalformedTextError
          | None => Throw MalformedTextError
          end
      else
        match Base64.sextet_of_char c3, Base64.sextet_of_char c4 with
        | Some s3, Some s4 =>
            let '(a, b, c) := Base64.bytes_of_sextets s1 s2 s3 s4 in
            Return [Base64.byte_of_N a; Base64.byte_of_N b; Base64.byte_of_N c]
        | _, _ => Throw MalformedTextError
        end
  | _, _ => Throw MalformedTextError
  end.

(** A group that is followed by more text: four alphabet characters. *)
Definition base64DecodeInner (c1 c2 c3 c4 : ascii) : Result Uint8Array :=
  match Base64.sextet_of_char c1, Base64.sextet_of_char c2,
        Base64.sextet_of_char c3, Base64.sextet_of_char c4 with
  | Some s1, Some s2, Some s3, Some s4 =>
      let '(a, b, c) := Base64.bytes_of_sextets s1 s2 s3 s4 in
      Return [Base64.byte_of_N a; Base64.byte_of_N b; Base64.byte_of_N c]
  | _, _, _, _ => Throw MalformedTextError
  end.

(** Modelled from the spec: [base64Decode] of [./util], which is not part of
    the sources at hand.  The spec asks that decoding inverts encoding, and
    of the decoding of identifiers that it "rejects malformed text with a
    distinguishable error rather than silently truncating": text whose
    length is not a multiple of four, that has a character outside the
    alphabet, misplaced padding or non-zero spare bits is rejected with
    [MalformedTextError].  The spec has one base64 codec for identifiers and
    for opaque payloads, and says nothing else about payload text that is
    not base64; the same decoder serves both. *)
Fixpoint base64Decode (payload : string) : Result Uint8Array :=
  match payload with
  | "" => Return []
  | String c1 (String c2 (String c3 (String c4 rest))) =>
      match rest with
      | "" => base64DecodeLast c1 c2 c3 c4
      | _ =>
          group <- base64DecodeInner c1 c2 c3 c4 ;;
          bytes <- base64Decode rest ;;
          Return (group ++ bytes)%list
      end
  | _ => Throw MalformedTextError
  end.

(** Modelled from the spec: [base64EncodePrincipal] and
    [base64DecodePrincipal] of [./util] (the spec's [encodeId]/[decodeId]):
    the base64 text of the identifier's bytes, and back. *)
Definition base64EncodePrincipal (principal : Principal) : string :=
  base64Encode (toUint8Array principal).

Definition base64DecodePrincipal (principal : string) : Result Principal :=
  bytes <- base64Decode principal ;;
  Return (fromUint8Array bytes).

(** ** Protocol codec *)

(** *** Region CreateInstance *)
Module CreateInstance.

(** [enum SubnetStateType { New = 'new', FromPath = 'fromPath' }] *)
Module SubnetStateType.
Definition New : string := "new".
Definition FromPath : string := "fromPath".
End SubnetStateType.

(** The [state] object of a subnet configuration.  [type] is the tag the
    encoder switches on; [path] and [subnetId] are the fields of the
    [FromPath] variant, which only the [FromPath] branch reads. *)
Record SubnetStateConfig : Type := {
  type : string;
  path : string;
  subnetId : Principal
}.

(** [{ type: SubnetStateType.New }] *)
Definition NewSubnetStateConfig : SubnetStateConfig :=
  {| type := SubnetStateType.New; path := ""; subnetId := fromUint8Array [] |}.

Definition FromPathSubnetStateConfig (path : string) (subnetId : Principal)
  : SubnetStateConfig :=
  {| type := SubnetStateType.FromPath; path := path; subnetId := subnetId |}.

Record SubnetConfig : Type := {
  enableDeterministicTimeSlicing : option bool;
  enableBenchmarkingInstructionLimits : option bool;
  state : SubnetStateConfig
}.

Record CreateInstanceRequest : Type := {
  nns : option SubnetConfig;
  sns : option SubnetConfig;
  ii : option SubnetConfig;
  fiduciary : option SubnetConfig;
  bitcoin : option SubnetConfig;
  system : option (list SubnetConfig);
  application : option (list SubnetConfig);
  verifiedApplication : option (list SubnetConfig);
  processingTimeoutMs : option number;
  nonmainnetFeatures : option bool
}.

Inductive EncodedDtsFlag : Type := Enabled | Disabled.

Inductive EncodedInstructionConfig : Type := Production | Benchmarking.

(** ['New' | { FromPath: [string, { subnet_id: string }] }] *)
Inductive EncodedStateConfig : Type :=
| New
| FromPath (path : string) (subnet_id : string).

Record EncodedSubnetConfig : Type := {
  dts_flag : EncodedDtsFlag;
  instruction_config : EncodedInstructionConfig;
  state_config : EncodedStateConfig
}.

(** The fields carry the names of the wire keys, with the prefix [enc_] that
    keeps them apart from the fields of the request. *)
Record EncodedCreateInstanceSubnetConfig : Type := {
  enc_nns : option EncodedSubnetConfig;
  enc_sns : option EncodedSubnetConfig;
  enc_ii : option EncodedSubnetConfig;
  enc_fiduciary : option EncodedSubnetConfig;
  enc_bitcoin : option EncodedSubnetConfig;
  enc_system : list EncodedSubnetConfig;
  enc_application : list EncodedSubnetConfig;
  enc_verified_application : list EncodedSubnetConfig
}.

Record EncodedCreateInstanceRequest : Type := {
  subnet_config_set : EncodedCreateInstanceSubnetConfig;
  nonmainnet_features : bool
}.

Definition encodeDtsFlag (enableDeterministicTimeSlicing : option bool)
  : EncodedDtsFlag :=
  match enableDeterministicTimeSlicing with
  | Some false => Disabled
  | _ => Enabled
  end.

Definition encodeInstructionConfig
  (enableBenchmarkingInstructionLimits : option bool)
  : EncodedInstructionConfig :=
  match enableBenchmarkingInstructionLimits with
  | Some true => Benchmarking
  | _ => Production
  end.

(** The [default] arm interpolates the state object into the message, which
    JavaScript renders as [[object Object]]. *)
Definition encodeSubnetConfig (config : option SubnetConfig)
  : Result (option EncodedSubnetConfig) :=
  match config with
  | None => Return None
  | Some config =>
      if String.eqb (type (state config)) SubnetStateType.New then
        Return (Some {|
          dts_flag := encodeDtsFlag (enableDeterministicTimeSlicing config);
          instruction_config :=
            encodeInstructionConfig (enableBenchmarkingInstructionLimits config);
          state_config := New |})
      else if String.eqb (type (state config)) SubnetStateType.FromPath then
        Return (Some {|
          dts_flag := encodeDtsFlag (enableDeterministicTimeSlicing config);
          instruction_config :=
            encodeInstructionConfig (enableBenchmarkingInstructionLimits config);
          state_config :=
            FromPath (path (state config))
                     (base64EncodePrincipal (subnetId (state config))) |})
      else Throw (Error "Unknown subnet state type: [object Object]")
  end.

(** [configs.map(encodeSubnetConfig).filter(isNotNil)], with [configs = []]
    when the argument is absent. *)
Definition encodeManySubnetConfigs (configs : option (list SubnetConfig))
  : Result (list EncodedSubnetConfig) :=
  let configs := match configs with Some cs => cs | None => [] end in
  encoded <- mapM (fun config => encodeSubnetConfig (Some config)) configs ;;
  Return (present (filter isNotNil encoded)).

Definition defaultApplicationSubnet : SubnetConfig :=
  {| enableDeterministicTimeSlicing := None;
     enableBenchmarkingInstructionLimits := None;
     state := NewSubnetStateConfig |}.

(** [{ application: [defaultApplicationSubnet] }] *)
Definition onlyDefaultApplication : CreateInstanceRequest :=
  {| nns := None; sns := None; ii := None; fiduciary := None; bitcoin := None;
     system := None;
     application := Some [defaultApplicationSubnet];
     verifiedApplication := None;
     processingTimeoutMs := None;
     nonmainnetFeatures := None |}.

(** [xs.length], an integer that the validation gate compares with zero. *)
Definition length_of {A : Type} (xs : list A) : Z := Z.of_nat (List.length xs).

(** The condition of the [if] that guards [throw new TopologyValidationError()]. *)
Definition topologyIsInvalid (s : EncodedCreateInstanceSubnetConfig) : bool :=
  (isNil (enc_nns s) && isNil (enc_sns s) && isNil (enc_ii s)
   && isNil (enc_fiduciary s) && isNil (enc_bitcoin s)
   && (length_of (enc_system s) =? 0)%Z
   && (length_of (enc_application s) =? 0)%Z)
  || (length_of (enc_system s) <? 0)%Z
  || (length_of (enc_application s) <? 0)%Z.

Definition encodeCreateInstanceRequest (req : option CreateInstanceRequest)
  : Result EncodedCreateInstanceRequest :=
  let defaultOptions :=
    match req with
    | Some r => r
    | None => onlyDefaultApplication
    end in
  e_nns <- encodeSubnetConfig (nns defaultOptions) ;;
  e_sns <- encodeSubnetConfig (sns defaultOptions) ;;
  e_ii <- encodeSubnetConfig (ii defaultOptions) ;;
  e_fiduciary <- encodeSubnetConfig (fiduciary defaultOptions) ;;
  e_bitcoin <- encodeSubnetConfig (bitcoin defaultOptions) ;;
  e_system <- encodeManySubnetConfigs (system defaultOptions) ;;
  e_application <-
    encodeManySubnetConfigs
      (match application defaultOptions with
       | Some configs => Some configs
       | None => Some [defaultApplicationSubnet]
       end) ;;
  e_verified_application <-
    encodeManySubnetConfigs (verifiedApplication defaultOptions) ;;
  let options :=
    {| subnet_config_set :=
         {| enc_nns := e_nns; enc_sns := e_sns; enc_ii := e_ii;
            enc_fiduciary := e_fiduciary; enc_bitcoin := e_bitcoin;
            enc_system := e_system;
            enc_application := e_application;
            enc_verified_application := e_verified_application |};
       nonmainnet_features :=
         match nonmainnetFeatures defaultOptions with
         | Some b => b
         | None => false
         end |} in
  if topologyIsInvalid (subnet_config_set options)
  then Throw TopologyValidationError
  else Return options.

(** The request object [{}]: present, with every field absent. *)
Definition emptyRequest : CreateInstanceRequest :=
  {| nns := None; sns := None; ii := None; fiduciary := None; bitcoin := None;
     system := None; application := None; verifiedApplication := None;
     processingTimeoutMs := None; nonmainnetFeatures := None |}.

(** What the default Application subnet is encoded as. *)
Definition encodedDefaultApplicationSubnet : EncodedSubnetConfig :=
  {| dts_flag := Enabled; instruction_config := Production;
     state_config := New |}.

Definition count_present {A : Type} (x : option A) : nat :=
  if isNil x then 0 else 1.

Definition count_listed {A : Type} (xs : option (list A)) : nat :=
  match xs with
  | Some l => List.length l
  | None => 0
  end.

(** The number of subnets that a request specifies, over all roles. *)
Definition subnetCount (req : CreateInstanceRequest) : nat :=
  count_present (nns req) + count_present (sns req) + count_present (ii req)
  + count_present (fiduciary req) + count_present (bitcoin req)
  + count_listed (system req) + count_listed (application req)
  + count_listed (verifiedApplication req).

(** The number of subnets in an encoded request, over all roles. *)
Definition encodedSubnetCount (s : EncodedCreateInstanceSubnetConfig) : nat :=
  count_present (enc_nns s) + count_present (enc_sns s)
  + count_present (enc_ii s) + count_present (enc_fiduciary s)
  + count_present (enc_bitcoin s)
  + List.length (enc_system s) + List.length (enc_application s)
  + List.length (enc_verified_application s).

(** A list field that holds no subnet: absent, or the empty list. *)
Definition noneListed {A : Type} (xs : option (list A)) : Prop :=
  xs = None \/ xs = Some [].

(** The state types that [SubnetStateType] lists. *)
Definition knownStateType (config : SubnetConfig) : Prop :=
  type (state config) = SubnetStateType.New
  \/ type (state config) = SubnetStateType.FromPath.

(** [{ ...req, processingTimeoutMs }] *)
Definition withProcessingTimeoutMs (timeout : option number)
  (req : CreateInstanceRequest) : CreateInstanceRequest :=
  {| nns := nns req; sns := sns req; ii := ii req;
     fiduciary := fiduciary req; bitcoin := bitcoin req;
     system := system req; application := application req;
     verifiedApplication := verifiedApplication req;
     processingTimeoutMs := timeout;
     nonmainnetFeatures := nonmainnetFeatures req |}.

(** The message of the [default] arm of [encodeSubnetConfig]. *)
Definition unknownSubnetState : JsError :=
  Error "Unknown subnet state type: [object Object]".

End CreateInstance.

(** *** Region GetTopology *)
Module GetTopology.

(** [enum SubnetType]; the values are the wire tokens. *)
Inductive SubnetType : Type :=
| Application
| Bitcoin
| Fiduciary
| InternetIdentity
| NNS
| SNS
| System.

(** [EncodedSubnetKind] is a string on the wire; the seven tokens the type
    lists are those of the [case] labels. *)
Definition decodeSubnetKind (kind : string) : Result SubnetType :=
  if String.eqb kind "Application" then Return Application
  else if String.eqb kind "Bitcoin" then Return Bitcoin
  else if String.eqb kind "Fiduciary" then Return Fiduciary
  else if String.eqb kind "II" then Return InternetIdentity
  else if String.eqb kind "NNS" then Return NNS
  else if String.eqb kind "SNS" then Return SNS
  else if String.eqb kind "System" then Return System
  else Throw (Error ("Unknown subnet kind: " ++ kind)).

Definition knownSubnetKinds : list string :=
  ["Application"; "Bitcoin"; "Fiduciary"; "II"; "NNS"; "SNS"; "System"].

(** The string value of each member of [enum SubnetType]. *)
Definition subnetTypeValue (t : SubnetType) : string :=
  match t with
  | Application => "Application"
  | Bitcoin => "Bitcoin"
  | Fiduciary => "Fiduciary"
  | InternetIdentity => "II"
  | NNS => "NNS"
  | SNS => "SNS"
  | System => "System"
  end.

(** [{ start: { canister_id }, end: { canister_id } }] *)
Record EncodedCanisterRange : Type := {
  start_canister_id : string;
  end_canister_id : string
}.

(** The fields carry the names of the wire keys; [enc_size] is the wire key
    [size], kept apart from the field of [SubnetTopology]. *)
Record EncodedSubnetTopology : Type := {
  subnet_kind : string;
  enc_size : number;
  canister_ranges : list EncodedCanisterRange
}.

(** [{ start: Principal, end: Principal }] *)
Record CanisterRange : Type := {
  range_start : Principal;
  range_end : Principal
}.

Record SubnetTopology : Type := {
  id : Principal;
  type : SubnetType;
  size : number;
  canisterRanges : list CanisterRange
}.

(** A [Record<string, T>] whose keys are subnet identifiers in text form:
    the entries in the order of [Object.entries], which is the order of
    insertion for such keys; the keys of an object are distinct. *)
Definition EncodedInstanceTopology : Type :=
  list (string * EncodedSubnetTopology).

Definition InstanceTopology : Type := list (string * SubnetTopology).

Definition decodeCanisterRange (range : EncodedCanisterRange)
  : Result CanisterRange :=
  s <- base64DecodePrincipal (start_canister_id range) ;;
  e <- base64DecodePrincipal (end_canister_id range) ;;
  Return {| range_start := s; range_end := e |}.

(** [fromText] is [Principal.fromText] of [@dfinity/principal], which parses
    the text form of an identifier and throws on text that is none. *)
Definition decodeSubnetTopology (fromText : string -> Result Principal)
  (subnetId : string) (encoded : EncodedSubnetTopology)
  : Result SubnetTopology :=
  i <- fromText subnetId ;;
  t <- decodeSubnetKind (subnet_kind encoded) ;;
  ranges <- mapM decodeCanisterRange (canister_ranges encoded) ;;
  Return {| id := i; type := t; size := enc_size encoded;
            canisterRanges := ranges |}.

(** [Object.fromEntries(Object.entries(encoded).map(...))] *)
Definition decodeInstanceTopology (fromText : string -> Result Principal)
  (encoded : EncodedInstanceTopology) : Result InstanceTopology :=
  mapM (fun entry =>
          topology <- decodeSubnetTopology fromText (fst entry) (snd entry) ;;
          Return (fst entry, topology))
       encoded.

End GetTopology.

(** *** Region GetTime *)
Module GetTime.

Record GetTimeResponse : Type := { millisSinceEpoch : number }.

Record EncodedGetTimeResponse : Type := { nanos_since_epoch : number }.

Definition decodeGetTimeResponse (res : EncodedGetTimeResponse)
  : GetTimeResponse :=
  {| millisSinceEpoch := div (nanos_since_epoch res) (of_Z 1000000) |}.

End GetTime.

(** *** Region SetTime *)
Module SetTime.

Record SetTimeRequest : Type := { millisSinceEpoch : number }.

Record EncodedSetTimeRequest : Type := { nanos_since_epoch : number }.

Definition encodeSetTimeRequest (req : SetTimeRequest)
  : EncodedSetTimeRequest :=
  {| nanos_since_epoch := mul (millisSinceEpoch req) (of_Z 1000000) |}.

(** [decodeGetTimeResponse(encodeSetTimeRequest({ millisSinceEpoch }))]:
    the time read back when the nanoseconds that were sent are returned. *)
Definition readBack (millis : number) : number :=
  GetTime.millisSinceEpoch
    (GetTime.decodeGetTimeResponse
       {| GetTime.nanos_since_epoch :=
            nanos_since_epoch
              (encodeSetTimeRequest {| millisSinceEpoch := millis |}) |}).

(** [encodeSetTimeRequest(decodeGetTimeResponse({ nanos_since_epoch }))]:
    the nanoseconds sent when the time that was read is set again. *)
Definition writeBack (nanos : number) : number :=
  nanos_since_epoch
    (encodeSetTimeRequest
       {| millisSinceEpoch :=
            GetTime.millisSinceEpoch
              (GetTime.decodeGetTimeResponse
                 {| GetTime.nanos_since_epoch := nanos |}) |}).

End SetTime.

(** *** Region GetCanisterSubnetId *)
Module GetCanisterSubnetId.




End GetCanisterSubnetId.

(** *** Region GetPendingHttpsOutcalls *)
Module GetPendingHttpsOutcalls.

(** [enum CanisterHttpMethod { GET = 'GET', POST = 'POST', HEAD = 'HEAD' }] *)
Inductive CanisterHttpMethod : Type := GET | POST | HEAD.

(** [[string, string]] *)
Definition CanisterHttpHeader : Type := (string * string)%type.

Record EncodedCanisterHttpHeader : Type := { name : string; value : string }.

(** [enum EncodedCanisterHttpMethod]: the wire tokens. *)
Module EncodedCanisterHttpMethod.
Definition GET : string := "GET".
Definition POST : string := "POST".
Definition HEAD : string := "HEAD".
End EncodedCanisterHttpMethod.

Definition decodeCanisterHttpMethod (method : string)
  : Result CanisterHttpMethod :=
  if String.eqb method EncodedCanisterHttpMethod.GET then Return GET
  else if String.eqb method EncodedCanisterHttpMethod.POST then Return POST
  else if String.eqb method EncodedCanisterHttpMethod.HEAD then Return HEAD
  else Throw (Error ("Unknown canister HTTP method: " ++ method)).

Definition decodeHttpHeader (header : EncodedCanisterHttpHeader)
  : CanisterHttpHeader :=
  (name header, value header).

(** The string value of each member of [enum CanisterHttpMethod]. *)
Definition canisterHttpMethodValue (m : CanisterHttpMethod) : string :=
  match m with
  | GET => "GET"
  | POST => "POST"
  | HEAD => "HEAD"
  end.

Record GetPendingHttpsOutcallsResponse : Type := {
  subnetId : Principal;
  requestId : number;
  httpMethod : CanisterHttpMethod;
  url : string;
  headers : list CanisterHttpHeader;
  body : Uint8Array;
  maxResponseBytes : option number
}.

(** The fields carry the names of the wire keys, with the prefix [enc_]
    where the decoded record has a field of the same name; [subnet_id] is
    the string under [subnet_id.subnet_id]. *)
Record EncodedGetPendingHttpsOutcallsResponse : Type := {
  subnet_id : string;
  request_id : number;
  http_method : string;
  enc_url : string;
  enc_headers : list EncodedCanisterHttpHeader;
  enc_body : string;
  max_response_bytes : option number
}.

Definition decodeHttpOutcall (res : EncodedGetPendingHttpsOutcallsResponse)
  : Result GetPendingHttpsOutcallsResponse :=
  s <- base64DecodePrincipal (subnet_id res) ;;
  m <- decodeCanisterHttpMethod (http_method res) ;;
  b <- base64Decode (enc_body res) ;;
  Return {| subnetId := s;
            requestId := request_id res;
            httpMethod := m;
            url := enc_url res;
            headers := map decodeHttpHeader (enc_headers res);
            body := b;
            maxResponseBytes := max_response_bytes res |}.

Definition decodeGetPendingHttpsOutcallsResponse
  (res : list EncodedGetPendingHttpsOutcallsResponse)
  : Result (list GetPendingHttpsOutcallsResponse) :=
  mapM decodeHttpOutcall res.

End GetPendingHttpsOutcalls.

(** *** Region MockPendingHttpsOutcall *)
Module MockPendingHttpsOutcall.

Import GetPendingHttpsOutcalls.

(** A mock response object.  [type] is the tag the encoder switches on;
    [statusCode] belongs to both variants, [headers] and [body] to the
    ['success'] variant and [message] to the ['reject'] variant; each branch
    reads the fields of its own variant only. *)
Record HttpsOutcallResponseMock : Type := {
  type : string;
  statusCode : number;
  headers : list CanisterHttpHeader;
  body : Uint8Array;
  message : string
}.

Inductive EncodedHttpsOutcallResponseMock : Type :=
| CanisterHttpReply (status : number)
                    (headers : list EncodedCanisterHttpHeader)
                    (body : string)
| CanisterHttpReject (reject_code : number) (message : string).

Definition encodeHttpHeader (header : CanisterHttpHeader)
  : EncodedCanisterHttpHeader :=
  {| name := fst header; value := snd header |}.

(** The [default] arm interpolates the response object into the message,
    which JavaScript renders as [[object Object]]. *)
Definition encodeHttpsOutcallResponse (res : HttpsOutcallResponseMock)
  : Result EncodedHttpsOutcallResponseMock :=
  if String.eqb (type res) "success" then
    Return (CanisterHttpReply (statusCode res)
                              (map encodeHttpHeader (headers res))
                              (base64Encode (body res)))
  else if String.eqb (type res) "reject" then
    Return (CanisterHttpReject (statusCode res) (message res))
  else Throw (Error "Unknown response type: [object Object]").

Record MockPendingHttpsOutcallRequest : Type := {
  subnetId : Principal;
  requestId : number;
  response : HttpsOutcallResponseMock;
  additionalResponses : list HttpsOutcallResponseMock
}.

(** [subnet_id] is the string under [subnet_id.subnet_id]; [enc_response] is
    the wire key [response]. *)
Record EncodedMockPendingHttpsOutcallRequest : Type := {
  subnet_id : string;
  request_id : number;
  enc_response : EncodedHttpsOutcallResponseMock;
  additional_responses : list EncodedHttpsOutcallResponseMock
}.

Definition encodeMockPendingHttpsOutcallRequest
  (req : MockPendingHttpsOutcallRequest)
  : Result EncodedMockPendingHttpsOutcallRequest :=
  r <- encodeHttpsOutcallResponse (response req) ;;
  rs <- mapM encodeHttpsOutcallResponse (additionalResponses req) ;;
  Return {| subnet_id := base64EncodePrincipal (subnetId req);
            request_id := requestId req;
            enc_response := r;
            additional_responses := rs |}.

(** The types that [HttpsOutcallResponseMock] lists. *)
Definition knownMockType (res : HttpsOutcallResponseMock) : Prop :=
  type res = "success" \/ type res = "reject".

End MockPendingHttpsOutcall.

(** *** Region CanisterCall *)
Module CanisterCall.

(** [{ subnetId: Principal } | { canisterId: Principal }] *)
Inductive EffectivePrincipal : Type :=
| subnetId (p : Principal)
| canisterId (p : Principal).

(** [{ SubnetId: string } | { CanisterId: string } | 'None'] *)
Inductive EncodedEffectivePrincipal : Type :=
| SubnetId (id : string)
| CanisterId (id : string)
| None_.

Definition encodeEffectivePrincipal
  (effectivePrincipal : option EffectivePrincipal)
  : EncodedEffectivePrincipal :=
  match effectivePrincipal with
  | None => None_
  | Some (subnetId p) => SubnetId (base64EncodePrincipal p)
  | Some (canisterId p) => CanisterId (base64EncodePrincipal p)
  end.

Definition decodeEffectivePrincipal
  (effectivePrincipal : EncodedEffectivePrincipal)
  : Result (option EffectivePrincipal) :=
  match effectivePrincipal with
  | None_ => Return None
  | SubnetId id =>
      p <- base64DecodePrincipal id ;;
      Return (Some (subnetId p))
  | CanisterId id =>
      p <- base64DecodePrincipal id ;;
      Return (Some (canisterId p))
  end.


Record CanisterCallResponse : Type := { body : Uint8Array }.

Record EncodedCanisterError : Type := { code : string; description : string }.

(** The payload under [Ok]: [{ Reply: string }] or [{ Reject: string }]. *)
Inductive EncodedCanisterCallOk : Type :=
| Reply (payload : string)
| Reject (message : string).

(** [{ Ok: ... } | { Err: EncodedCanisterError }] *)
Inductive EncodedCanisterCallResponse : Type :=
| Ok (ok : EncodedCanisterCallOk)
| Err (err : EncodedCanisterError).

Definition decodeCanisterCallResponse (res : EncodedCanisterCallResponse)
  : Result CanisterCallResponse :=
  match res with
  | Err err => Throw (Error (description err))
  | Ok (Reject message) => Throw (Error message)
  | Ok (Reply payload) =>
      bytes <- base64Decode payload ;;
      Return {| body := bytes |}
  end.

End CanisterCall.

(** *** Regions CanisterCall (the request) and SubmitCanisterCall

    The request of a call and its encoder are declared here, apart from the
    effective principal above, so that the fields keep the names of the
    source. *)
Module SubmitCanisterCall.

Record CanisterCallRequest : Type := {
  sender : Principal;
  canisterId : Principal;
  method : string;
  payload : Uint8Array;
  effectivePrincipal : option CanisterCall.EffectivePrincipal
}.

Record EncodedCanisterCallRequest : Type := {
  enc_sender : string;
  canister_id : string;
  enc_method : string;
  enc_payload : string;
  effective_principal : CanisterCall.EncodedEffectivePrincipal
}.

Definition encodeCanisterCallRequest (req : CanisterCallRequest)
  : EncodedCanisterCallRequest :=
  {| enc_sender := base64EncodePrincipal (sender req);
     canister_id := base64EncodePrincipal (canisterId req);
     enc_method := method req;
     enc_payload := base64Encode (payload req);
     effective_principal :=
       CanisterCall.encodeEffectivePrincipal (effectivePrincipal req) |}.

Definition encodeSubmitCanisterCallRequest (req : CanisterCallRequest)
  : EncodedCanisterCallRequest :=
  encodeCanisterCallRequest req.





End SubmitCanisterCall.

(** *** Region AwaitCanisterCall *)
Module AwaitCanisterCall.

Definition decodeAwaitCanisterCallResponse
  (res : CanisterCall.EncodedCanisterCallResponse)
  : Result CanisterCall.CanisterCallResponse :=
  CanisterCall.decodeCanisterCallResponse res.


End AwaitCanisterCall.

(** ** The NNS proxy test ([nns-proxy.spec.ts]) *)
Module NnsProxySpec.

Import CreateInstance.

(** The options that [beforeEach] hands to [PocketIc.create]: an NNS subnet
    whose state is loaded from [path] for the subnet [subnetId], and nothing
    else. *)
Definition createOptions (path : string) (subnetId : Principal)
  : CreateInstanceRequest :=
  {| nns := Some {| enableDeterministicTimeSlicing := None;
                    enableBenchmarkingInstructionLimits := None;
                    state := FromPathSubnetStateConfig path subnetId |};
     sns := None; ii := None; fiduciary := None; bitcoin := None;
     system := None; application := None; verifiedApplication := None;
     processingTimeoutMs := None; nonmainnetFeatures := None |}.

End NnsProxySpec.

(** ** Process supervisor ([pocket-ic-server.ts]) *)
Module PocketIcServer.

(** *** The child process and its listeners

    A [ChildProcess] of Node is an event emitter.  [on] appends a listener;
    an event calls the listeners of its name synchronously, in the order of
    registration, and an exception thrown by a listener leaves [emit] at
    once, so the listeners registered after it are not called.  ['exit'] is
    emitted once, when the operating-system process has ended.  [kill] does
    nothing when the process has ended; otherwise it sends the signal, and
    when the operating system refuses the signal it emits ['error'] before
    it returns. *)

(** The listeners that the class registers on ['exit']. *)
Inductive ExitListener : Type :=
| resolveOnExit (promise : nat).      (* stop: () => { resolve(); } *)

(** The listeners that the class registers on ['error']. *)
Inductive ErrorListener : Type :=
| throwStartError (macOsArm : bool)   (* start: error => { throw ... } *)
| rejectOnError (promise : nat).      (* stop: error => { reject(error); } *)

(** Where an output stream of the child is piped. *)
Inductive Sink : Type :=
| ParentStream                        (* process.stdout / process.stderr *)
| NullStream.                         (* new NullStream() *)

Record ChildProcess : Type := {
  exited : bool;                      (* the process has ended *)
  killed : bool;                      (* kill() has delivered its signal *)
  stdout : Sink;
  stderr : Sink;
  exitListeners : list ExitListener;
  errorListeners : list ErrorListener
}.

Inductive PromiseState : Type :=
| Pending
| Fulfilled
| Rejected (reason : JsError).

(** [resolve]/[reject] of a promise: only a pending promise changes. *)
Fixpoint settle (promise : nat) (outcome : PromiseState)
  (promises : list PromiseState) : list PromiseState :=
  match promises with
  | [] => []
  | p :: rest =>
      match promise with
      | O => match p with
             | Pending => outcome
             | _ => p
             end :: rest
      | S promise' => p :: settle promise' outcome rest
      end
  end.

Definition onExit (l : ExitListener) (proc : ChildProcess) : ChildProcess :=
  {| exited := exited proc; killed := killed proc;
     stdout := stdout proc; stderr := stderr proc;
     exitListeners := exitListeners proc ++ [l];
     errorListeners := errorListeners proc |}.

Definition onError (l : ErrorListener) (proc : ChildProcess) : ChildProcess :=
  {| exited := exited proc; killed := killed proc;
     stdout := stdout proc; stderr := stderr proc;
     exitListeners := exitListeners proc;
     errorListeners := errorListeners proc ++ [l] |}.

(** What the operating system answers when a signal is sent to a process
    that has not ended. *)
Inductive KillOutcome : Type :=
| Delivered
| Refused (error : JsError).

Definition markKilled (proc : ChildProcess) : ChildProcess :=
  {| exited := exited proc; killed := true;
     stdout := stdout proc; stderr := stderr proc;
     exitListeners := exitListeners proc;
     errorListeners := errorListeners proc |}.

Definition markExited (proc : ChildProcess) : ChildProcess :=
  {| exited := true; killed := killed proc;
     stdout := stdout proc; stderr := stderr proc;
     exitListeners := exitListeners proc;
     errorListeners := errorListeners proc |}.

(** [emit('exit')] *)
Fixpoint emitExit (listeners : list ExitListener)
  (promises : list PromiseState) : list PromiseState :=
  match listeners with
  | [] => promises
  | resolveOnExit p :: rest => emitExit rest (settle p Fulfilled promises)
  end.

(** [emit('error', error)]: the promises afterwards, and the exception that
    left a listener, if any. *)
Fixpoint emitError (listeners : list ErrorListener) (error : JsError)
  (promises : list PromiseState) : list PromiseState * option JsError :=
  match listeners with
  | [] => (promises, None)
  | throwStartError macOsArm :: _ =>
      (promises,
       Some (if macOsArm then BinStartMacOSArmError else BinStartError))
  | rejectOnError p :: rest =>
      emitError rest error (settle p (Rejected error) promises)
  end.

(** [serverProcess.kill()]: the process and the promises afterwards, and
    the exception that left the call, if any. *)
Definition kill (answer : KillOutcome) (proc : ChildProcess)
  (promises : list PromiseState)
  : ChildProcess * list PromiseState * option JsError :=
  if exited proc then (proc, promises, None)
  else
    match answer with
    | Delivered => (markKilled proc, promises, None)
    | Refused error =>
        let '(promises', thrown) :=
          emitError (errorListeners proc) error promises in
        (proc, promises', thrown)
    end.

(** *** The class *)

Record StartServerOptions : Type := {
  showRuntimeLogs : option bool;
  showCanisterLogs : option bool
}.

(** What [start] observes of the machine it runs on.  [exists], [isArm] and
    [isDarwin] are tests of [./util] on the file system and the platform;
    their answers are fields of the host. *)
Record Host : Type := {
  binPath : string;                   (* resolve(__dirname, '..', 'pocket-ic') *)
  binExists : bool;                   (* exists(binPath) *)
  isArm : bool;                       (* isArm() *)
  isDarwin : bool;                    (* isDarwin() *)
  (* the readiness file [t] milliseconds after the spawn; [None]: no file *)
  portFile : N -> option string
}.

Record PocketIcServer : Type := {
  serverProcess : ChildProcess;
  url : string
}.

(** [new PocketIcServer(serverProcess, portNumber)] *)
Definition new (serverProcess : ChildProcess) (portNumber : number)
  : PocketIcServer :=
  {| serverProcess := serverProcess;
     url := "http://127.0.0.1:" ++ Number_toString portNumber |}.

Definition getUrl (this : PocketIcServer) : string := url this.

Definition POLL_INTERVAL_MS : N := 20.
Definition POLL_TIMEOUT_MS : N := 30000.

Definition truthy (flag : option bool) : bool :=
  match flag with
  | Some true => true
  | _ => false
  end.

(** [spawn(binPath, ['--port-file', portFilePath])], followed by the two
    [pipe] calls and the registration of the ['error'] listener. *)
Definition spawn (options : StartServerOptions) (host : Host) : ChildProcess :=
  {| exited := false; killed := false;
     stdout := if truthy (showRuntimeLogs options) then ParentStream
               else NullStream;
     stderr := if truthy (showCanisterLogs options) then ParentStream
               else NullStream;
     exitListeners := [];
     errorListeners := [throwStartError (isArm host && isDarwin host)] |}.

(** Modelled from the spec: [readFileAsString] of [./util], which is not part
    of the sources at hand.  The spec calls it a "best-effort file read": a
    file that is not there yet reads as the empty text. *)
Definition readFileAsString (file : option string) : string :=
  match file with
  | Some text => text
  | None => ""
  end.

(** Modelled from the spec: [poll] of [./util], which is not part of the
    sources at hand.  The spec describes "an explicit bounded-retry function
    parameterized by interval and timeout" that makes an attempt, sleeps for
    the interval after a failed one, and turns the failure into a terminal
    one at the timeout.  Attempts are made at the multiples of [intervalMs]
    that do not exceed [timeoutMs]; the promise settles with the value of the
    first attempt that succeeds, or with the exception of the last attempt.
    The result carries the time, in milliseconds since the call, at which
    the promise settles. *)
Fixpoint pollFrom {A : Type} (retries : nat) (cb : N -> Result A)
  (intervalMs now : N) : Result A * N :=
  match cb now with
  | Return a => (Return a, now)
  | Throw e =>
      match retries with
      | O => (Throw e, now)
      | S retries' => pollFrom retries' cb intervalMs (now + intervalMs)%N
      end
  end.

Definition poll {A : Type} (cb : N -> Result A) (intervalMs timeoutMs : N)
  : Result A * N :=
  pollFrom (N.to_nat (timeoutMs / intervalMs)) cb intervalMs 0%N.

(** The callback that [start] hands to [poll], run at time [now]. *)
Definition readPort (host : Host) (serverProcess : ChildProcess) (now : N)
  : Result PocketIcServer :=
  let portString := readFileAsString (portFile host now) in
  let port := parseInt portString in
  if isNaN port then Throw BinTimeoutError
  else Return (new serverProcess port).

(** [PocketIcServer.start(options)]: the outcome of the returned promise and
    the time at which it settles.  [chmodSync] and the choice of the name of
    the readiness file have no counterpart here. *)
Definition start (options : StartServerOptions) (host : Host)
  : Result PocketIcServer * N :=
  if negb (binExists host) then (Throw (BinNotFoundError (binPath host)), 0%N)
  else
    let serverProcess := spawn options host in
    poll (readPort host serverProcess) POLL_INTERVAL_MS POLL_TIMEOUT_MS.

(** *** The run-time state around one server

    The child process, the promises handed out by [stop] (numbered in order
    of creation), and the exceptions that escaped from event listeners. *)
Record Runtime : Type := {
  process : ChildProcess;
  promises : list PromiseState;
  uncaught : list JsError
}.

Definition boot (server : PocketIcServer) : Runtime :=
  {| process := serverProcess server; promises := []; uncaught := [] |}.

(** [server.stop()]: a new promise whose executor registers the two
    listeners and then kills the process; an exception that leaves the
    executor rejects the promise.  [answer] is what the operating system
    answers to the signal.  The result is the new state and the number of
    the promise that [stop] returns. *)
Definition stop (answer : KillOutcome) (r : Runtime) : Runtime * nat :=
  let promise := List.length (promises r) in
  let proc := onExit (resolveOnExit promise) (process r) in
  let proc := onError (rejectOnError promise) proc in
  let '(proc, promises', thrown) :=
    kill answer proc (promises r ++ [Pending]) in
  ({| process := proc;
      promises := match thrown with
                  | Some e => settle promise (Rejected e) promises'
                  | None => promises'
                  end;
      uncaught := uncaught r |}, promise).

(** The operating-system process ends: ['exit'] is emitted. *)
Definition processExits (r : Runtime) : Runtime :=
  {| process := markExited (process r);
     promises := emitExit (exitListeners (process r)) (promises r);
     uncaught := uncaught r |}.

(** The child process reports [error] on its own: ['error'] is emitted from
    the event loop, and an exception that leaves a listener is uncaught. *)
Definition processErrors (error : JsError) (r : Runtime) : Runtime :=
  let '(promises', thrown) :=
    emitError (errorListeners (process r)) error (promises r) in
  {| process := process r;
     promises := promises';
     uncaught := match thrown with
                 | Some e => uncaught r ++ [e]
                 | None => uncaught r
                 end |}.

(** One step of the life of a server: the client calls [stop], or the
    running process ends or reports an error. *)
Inductive step : Runtime -> Runtime -> Prop :=
| step_stop r answer : step r (fst (stop answer r))
| step_exit r : exited (process r) = false -> step r (processExits r)
| step_error r error :
    exited (process r) = false -> step r (processErrors error r).

Inductive steps : Runtime -> Runtime -> Prop :=
| steps_refl r : steps r r
| steps_step r1 r2 r3 : steps r1 r2 -> step r2 r3 -> steps r1 r3.

Definition promiseState (r : Runtime) (promise : nat) : option PromiseState :=
  nth_error (promises r) promise.



(** A server as [start] makes it on a Linux host, listening on port 8080. *)
Definition exampleServer : PocketIcServer :=
  {| serverProcess :=
       spawn {| showRuntimeLogs := None; showCanisterLogs := None |}
             {| binPath := "/pic/pocket-ic"; binExists := true;
                isArm := false; isDarwin := false;
                portFile := fun _ => Some "8080" |};
     url := "http://127.0.0.1:8080" |}.

(** The example server after [stop()] and the end of the process. *)
Definition stoppedExample : Runtime :=
  processExits (fst (stop Delivered (boot exampleServer))).

(** A host whose readiness file never appears, and one whose file appears
    130 ms after the spawn with the text [8080] and a line feed. *)
Definition silentHost : Host :=
  {| binPath := "/pic/pocket-ic"; binExists := true;
     isArm := false; isDarwin := false;
     portFile := fun _ => None |}.

Definition readyHost : Host :=
  {| binPath := "/pic/pocket-ic"; binExists := true;
     isArm := false; isDarwin := false;
     portFile := fun t =>
       if (t <? 130)%N then None else Some ("8080" ++ String "010" "") |}.

Definition quietOptions : StartServerOptions :=
  {| showRuntimeLogs := None; showCanisterLogs := None |}.

End PocketIcServer.

(* ================================================================== *)
(** * Part II. Properties *)
(* ================================================================== *)

(** ** The identifier codec is a canonical encoding *)
Module Base64Facts.
Import Base64.
Local Open Scope N_scope.

Ltac Zify.zify_post_hook ::= Z.to_euclidean_division_equations.

Ltac decide_comparisons :=
  repeat match goal with
         | |- context [?a <=? ?b] => destruct (N.leb_spec a b); try lia
         | |- context [?a <? ?b] => destruct (N.ltb_spec a b); try lia
         | |- context [?a =? ?b] => destruct (N.eqb_spec a b); try lia
         end.

Lemma sextet_of_char_of_sextet (n : N) :
  n < 64 -> sextet_of_char (char_of_sextet n) = Some n.
Proof.
  intros H. unfold char_of_sextet, sextet_of_char.
  destruct (N.ltb_spec n 26); [|destruct (N.ltb_spec n 52); [|destruct (N.ltb_spec n 62)]].
  - rewrite N_ascii_embedding by lia. decide_comparisons. cbn [andb]. f_equal. lia.
  - rewrite N_ascii_embedding by lia. decide_comparisons. cbn [andb]. f_equal. lia.
  - rewrite N_ascii_embedding by lia. decide_comparisons. cbn [andb]. f_equal. lia.
  - assert (n = 62 \/ n = 63) as [-> | ->] by lia; reflexivity.
Qed.



Lemma char_of_sextet_not_pad (n : N) :
  n < 64 -> Ascii.eqb (char_of_sextet n) pad = false.
Proof.
  intros H. destruct (Ascii.eqb_spec (char_of_sextet n) pad) as [E|]; [|reflexivity].
  pose proof (sextet_of_char_of_sextet n H) as R. rewrite E in R. discriminate R.
Qed.

Lemma sextets_bounded (a b c : N) :
  a < 256 -> b < 256 -> c < 256 ->
  let '(s1, s2, s3, s4) := sextets_of_bytes a b c in
  s1 < 64 /\ s2 < 64 /\ s3 < 64 /\ s4 < 64.
Proof. intros. unfold sextets_of_bytes. repeat split; lia. Qed.

Lemma bytes_of_sextets_of_bytes (a b c : N) :
  a < 256 -> b < 256 -> c < 256 ->
  let '(s1, s2, s3, s4) := sextets_of_bytes a b c in
  bytes_of_sextets s1 s2 s3 s4 = (a, b, c).
Proof.
  intros. unfold sextets_of_bytes, bytes_of_sextets. f_equal; [f_equal|]; lia.
Qed.



Lemma byte_of_N_to_N (b : byte) : byte_of_N (Byte.to_N b) = b.
Proof. unfold byte_of_N. now rewrite Byte.of_to_N. Qed.


Lemma to_N_lt (b : byte) : Byte.to_N b < 256.
Proof. pose proof (Byte.to_N_bounded b). lia. Qed.


Lemma list_ind3 {A : Type} (P : list A -> Prop) :
  P [] -> (forall a, P [a]) -> (forall a b, P [a; b]) ->
  (forall a b c rest, P rest -> P (a :: b :: c :: rest)) ->
  forall l, P l.
Proof.
  intros H0 H1 H2 H3.
  fix IH 1.
  intros [|a [|b [|c rest]]];
    [exact H0 | apply H1 | apply H2 | apply H3, IH].
Qed.


Lemma base64Encode_empty (bs : Uint8Array) : base64Encode bs = "" -> bs = [].
Proof. destruct bs as [|a [|b [|c rest]]]; [reflexivity | discriminate..]. Qed.

(** A full group: three bytes, four alphabet characters. *)
Lemma decode_full_group (a b c : byte) :
  let '(s1, s2, s3, s4) :=
    sextets_of_bytes (Byte.to_N a) (Byte.to_N b) (Byte.to_N c) in
  base64DecodeInner (char_of_sextet s1) (char_of_sextet s2)
                    (char_of_sextet s3) (char_of_sextet s4)
  = Return [a; b; c]
  /\ base64DecodeLast (char_of_sextet s1) (char_of_sextet s2)
                      (char_of_sextet s3) (char_of_sextet s4)
     = Return [a; b; c].
Proof.
  pose proof (to_N_lt a) as Ha. pose proof (to_N_lt b) as Hb.
  pose proof (to_N_lt c) as Hc.
  pose proof (sextets_bounded _ _ _ Ha Hb Hc) as B.
  pose proof (bytes_of_sextets_of_bytes _ _ _ Ha Hb Hc) as R.
  destruct (sextets_of_bytes (Byte.to_N a) (Byte.to_N b) (Byte.to_N c))
    as [[[s1 s2] s3] s4].
  destruct B as (B1 & B2 & B3 & B4).
  unfold base64DecodeInner, base64DecodeLast.
  rewrite !sextet_of_char_of_sextet by assumption.
  rewrite (char_of_sextet_not_pad s4) by assumption.
  rewrite R, !byte_of_N_to_N. split; reflexivity.
Qed.

Theorem base64Decode_base64Encode (bytes : Uint8Array) :
  base64Decode (base64Encode bytes) = Return bytes.
Proof.
  induction bytes as [|a|a b|a b c rest IH] using list_ind3.
  - reflexivity.
  - pose proof (to_N_lt a) as Ha.
    cbn [base64Encode]. unfold sextets_of_bytes.
    cbn [base64Decode]. unfold base64DecodeLast.
    rewrite !sextet_of_char_of_sextet by lia.
    rewrite !Ascii.eqb_refl.
    replace (((Byte.to_N a mod 4 * 16 + 0 / 16) mod 16 =? 0)) with true
      by (symmetry; apply N.eqb_eq; lia).
    unfold bytes_of_sextets.
    replace (Byte.to_N a / 4 * 4 + (Byte.to_N a mod 4 * 16 + 0 / 16) / 16)
      with (Byte.to_N a) by lia.
    now rewrite byte_of_N_to_N.
  - pose proof (to_N_lt a) as Ha. pose proof (to_N_lt b) as Hb.
    cbn [base64Encode]. unfold sextets_of_bytes.
    cbn [base64Decode]. unfold base64DecodeLast.
    rewrite !sextet_of_char_of_sextet by lia.
    rewrite Ascii.eqb_refl.
    rewrite (char_of_sextet_not_pad (Byte.to_N b mod 16 * 4 + 0 / 64)) by lia.
    replace (((Byte.to_N b mod 16 * 4 + 0 / 64) mod 4 =? 0)) with true
      by (symmetry; apply N.eqb_eq; lia).
    unfold bytes_of_sextets.
    replace (Byte.to_N a / 4 * 4 + (Byte.to_N a mod 4 * 16 + Byte.to_N b / 16) / 16)
      with (Byte.to_N a) by lia.
    replace ((Byte.to_N a mod 4 * 16 + Byte.to_N b / 16) mod 16 * 16
             + (Byte.to_N b mod 16 * 4 + 0 / 64) / 4)
      with (Byte.to_N b) by lia.
    now rewrite !byte_of_N_to_N.
  - pose proof (decode_full_group a b c) as G.
    cbn [base64Encode].
    destruct (sextets_of_bytes (Byte.to_N a) (Byte.to_N b) (Byte.to_N c))
      as [[[s1 s2] s3] s4].
    destruct G as [Ginner Glast].
    cbn [base64Decode].
    destruct (base64Encode rest) as [|x xs] eqn:E.
    + apply base64Encode_empty in E. subst rest. exact Glast.
    + rewrite Ginner. cbn [bind]. rewrite IH. reflexivity.
Qed.


End Base64Facts.

Lemma base64DecodePrincipal_base64EncodePrincipal (p : Principal) :
  base64DecodePrincipal (base64EncodePrincipal p) = Return p.
Proof.
  unfold base64DecodePrincipal, base64EncodePrincipal.
  rewrite Base64Facts.base64Decode_base64Encode. now destruct p.
Qed.


(** ** Effective principals *)

Section EffectivePrincipal.

Import CanisterCall.




End EffectivePrincipal.

(** ** Call responses *)

Section CallResponse.

Import CanisterCall.



End CallResponse.

(** ** The subnet of a canister *)

Section SubnetIdResponse.

Import GetCanisterSubnetId.




End SubnetIdResponse.

(** ** Creating an instance: defaults and the validation gate *)

Section CreateInstanceFacts.

Import CreateInstance.

Lemma encodeSubnetConfig_absent :
  encodeSubnetConfig None = Return None.
Proof. reflexivity. Qed.

(** A present configuration is never encoded as an absent one. *)
Lemma encodeSubnetConfig_present (config : SubnetConfig)
  (e : option EncodedSubnetConfig) :
  encodeSubnetConfig (Some config) = Return e ->
  e = Some {|
    dts_flag := encodeDtsFlag (enableDeterministicTimeSlicing config);
    instruction_config :=
      encodeInstructionConfig (enableBenchmarkingInstructionLimits config);
    state_config :=
      if String.eqb (type (state config)) SubnetStateType.New then New
      else FromPath (path (state config))
                    (base64EncodePrincipal (subnetId (state config))) |}.
Proof.
  cbn [encodeSubnetConfig].
  destruct (String.eqb (type (state config)) SubnetStateType.New).
  - now intros [= <-].
  - destruct (String.eqb (type (state config)) SubnetStateType.FromPath).
    + now intros [= <-].
    + discriminate.
Qed.

Lemma encodeSubnetConfig_known (config : SubnetConfig) :
  knownStateType config ->
  exists e, encodeSubnetConfig (Some config) = Return (Some e).
Proof.
  intros [E|E]; cbn [encodeSubnetConfig]; rewrite E; cbn; eauto.
Qed.

(** [filter(isNotNil)] drops nothing from the encoded list: each element of
    the input yields one element of the output. *)
Lemma encodeManySubnetConfigs_length (configs : option (list SubnetConfig))
  (encoded : list EncodedSubnetConfig) :
  encodeManySubnetConfigs configs = Return encoded ->
  List.length encoded = count_listed configs.
Proof.
  unfold encodeManySubnetConfigs, count_listed.
  destruct configs as [cs|]; [|cbn; now intros [= <-]].
  revert encoded. induction cs as [|c cs IH]; intros encoded.
  - cbn. now intros [= <-].
  - cbn [mapM].
    destruct (encodeSubnetConfig (Some c)) as [e|] eqn:E; [|discriminate].
    apply encodeSubnetConfig_present in E. subst e. cbn [bind].
    destruct (mapM (fun config => encodeSubnetConfig (Some config)) cs)
      as [es|] eqn:M; [|discriminate].
    cbn [bind]. intros [= <-].
    cbn [filter isNotNil isNil negb present flat_map app List.length].
    f_equal. apply IH. reflexivity.
Qed.

Lemma encodeManySubnetConfigs_none_listed (configs : option (list SubnetConfig)) :
  noneListed configs -> encodeManySubnetConfigs configs = Return [].
Proof. intros [-> | ->]; reflexivity. Qed.

(** Running the encoder step by step: every field that was encoded. *)
Lemma encodeCreateInstanceRequest_returns (req : CreateInstanceRequest)
  (e : EncodedCreateInstanceRequest) :
  encodeCreateInstanceRequest (Some req) = Return e ->
  encodeSubnetConfig (nns req) = Return (enc_nns (subnet_config_set e))
  /\ encodeSubnetConfig (sns req) = Return (enc_sns (subnet_config_set e))
  /\ encodeSubnetConfig (ii req) = Return (enc_ii (subnet_config_set e))
  /\ encodeSubnetConfig (fiduciary req)
     = Return (enc_fiduciary (subnet_config_set e))
  /\ encodeSubnetConfig (bitcoin req)
     = Return (enc_bitcoin (subnet_config_set e))
  /\ encodeManySubnetConfigs (system req)
     = Return (enc_system (subnet_config_set e))
  /\ encodeManySubnetConfigs
       (match application req with
        | Some configs => Some configs
        | None => Some [defaultApplicationSubnet]
        end)
     = Return (enc_application (subnet_config_set e))
  /\ encodeManySubnetConfigs (verifiedApplication req)
     = Return (enc_verified_application (subnet_config_set e))
  /\ topologyIsInvalid (subnet_config_set e) = false.
Proof.
  unfold encodeCreateInstanceRequest.
  destruct (encodeSubnetConfig (nns req)) as [e1|]; [|discriminate].
  destruct (encodeSubnetConfig (sns req)) as [e2|]; [|discriminate].
  destruct (encodeSubnetConfig (ii req)) as [e3|]; [|discriminate].
  destruct (encodeSubnetConfig (fiduciary req)) as [e4|]; [|discriminate].
  destruct (encodeSubnetConfig (bitcoin req)) as [e5|]; [|discriminate].
  destruct (encodeManySubnetConfigs (system req)) as [e6|]; [|discriminate].
  destruct (encodeManySubnetConfigs _) as [e7|]; [|discriminate].
  destruct (encodeManySubnetConfigs (verifiedApplication req)) as [e8|];
    [|discriminate].
  cbn [bind].
  match goal with
  | |- context [topologyIsInvalid ?s] =>
      destruct (topologyIsInvalid s) eqn:T; [discriminate|]
  end.
  intros [= <-]. cbn. repeat split; try reflexivity. exact T.
Qed.

(** The gate lets an encoding through only if it holds a subnet. *)
Lemma topologyIsInvalid_false (s : EncodedCreateInstanceSubnetConfig) :
  topologyIsInvalid s = false -> 1 <= encodedSubnetCount s.
Proof.
  unfold topologyIsInvalid, encodedSubnetCount, count_present, length_of.
  destruct (enc_nns s), (enc_sns s), (enc_ii s), (enc_fiduciary s),
    (enc_bitcoin s), (enc_system s), (enc_application s); cbn; intros H;
    try discriminate H; lia.
Qed.

(** The gate lets every encoding with an application subnet through. *)
Lemma topologyIsInvalid_application (s : EncodedCreateInstanceSubnetConfig) :
  enc_application s <> [] -> topologyIsInvalid s = false.
Proof.
  unfold topologyIsInvalid, length_of. intros H.
  destruct (enc_application s) as [|e es]; [contradiction|].
  replace (Z.of_nat (List.length (e :: es)) =? 0)%Z with false
    by (symmetry; apply Z.eqb_neq; cbn [List.length]; lia).
  replace (Z.of_nat (List.length (e :: es)) <? 0)%Z with false
    by (symmetry; apply Z.ltb_ge; lia).
  replace (Z.of_nat (List.length (enc_system s)) <? 0)%Z with false
    by (symmetry; apply Z.ltb_ge; lia).
  now rewrite andb_false_r.
Qed.

(** The only exception of the subnet encoders is the unknown-state error. *)
Lemma encodeSubnetConfig_throws (config : option SubnetConfig) (e : JsError) :
  encodeSubnetConfig config = Throw e -> e <> TopologyValidationError.
Proof.
  destruct config as [config|]; cbn [encodeSubnetConfig]; [|discriminate].
  destruct (String.eqb _ _); [discriminate|].
  destruct (String.eqb _ _); [discriminate|].
  intros [= <-]. discriminate.
Qed.

Lemma encodeManySubnetConfigs_throws (configs : option (list SubnetConfig))
  (e : JsError) :
  encodeManySubnetConfigs configs = Throw e -> e <> TopologyValidationError.
Proof.
  unfold encodeManySubnetConfigs.
  generalize (match configs with Some cs => cs | None => [] end) as cs.
  induction cs as [|c cs IH]; cbn [mapM bind]; [discriminate|].
  destruct (encodeSubnetConfig (Some c)) as [x|e'] eqn:E; cbn [bind].
  - destruct (mapM _ cs) as [xs|e'']; cbn [bind] in *; [discriminate|].
    exact IH.
  - intros [= <-]. now apply encodeSubnetConfig_throws in E.
Qed.

(** With the application field absent, the gate never fires. *)
Lemma absent_application_is_not_rejected (req : CreateInstanceRequest) :
  application req = None ->
  encodeCreateInstanceRequest (Some req) <> Throw TopologyValidationError.
Proof.
  intros Ha. unfold encodeCreateInstanceRequest. rewrite Ha.
  destruct (encodeSubnetConfig (nns req)) eqn:E1; cbn [bind];
    [|intros [= ->]; now apply encodeSubnetConfig_throws in E1].
  destruct (encodeSubnetConfig (sns req)) eqn:E2; cbn [bind];
    [|intros [= ->]; now apply encodeSubnetConfig_throws in E2].
  destruct (encodeSubnetConfig (ii req)) eqn:E3; cbn [bind];
    [|intros [= ->]; now apply encodeSubnetConfig_throws in E3].
  destruct (encodeSubnetConfig (fiduciary req)) eqn:E4; cbn [bind];
    [|intros [= ->]; now apply encodeSubnetConfig_throws in E4].
  destruct (encodeSubnetConfig (bitcoin req)) eqn:E5; cbn [bind];
    [|intros [= ->]; now apply encodeSubnetConfig_throws in E5].
  destruct (encodeManySubnetConfigs (system req)) eqn:E6; cbn [bind];
    [|intros [= ->]; now apply encodeManySubnetConfigs_throws in E6].
  change (encodeManySubnetConfigs (Some [defaultApplicationSubnet]))
    with (Return [encodedDefaultApplicationSubnet]).
  cbn [bind].
  destruct (encodeManySubnetConfigs (verifiedApplication req)) eqn:E8;
    cbn [bind];
    [|intros [= ->]; now apply encodeManySubnetConfigs_throws in E8].
  rewrite topologyIsInvalid_application; [discriminate|].
  cbn [subnet_config_set enc_application]. discriminate.
Qed.

(** C1, as stated, fails: the request [{}] specifies no subnet in any role,
    yet it is not rejected; it is encoded with the default Application
    subnet. *)
Lemma empty_request_is_not_rejected :
  subnetCount emptyRequest = 0
  /\ encodeCreateInstanceRequest (Some emptyRequest)
     = Return {|
         subnet_config_set :=
           {| enc_nns := None; enc_sns := None; enc_ii := None;
              enc_fiduciary := None; enc_bitcoin := None;
              enc_system := [];
              enc_application := [encodedDefaultApplicationSubnet];
              enc_verified_application := [] |};
         nonmainnet_features := false |}.
Proof. split; reflexivity. Qed.

(** C1, amended.  A request with no nns, sns, ii, fiduciary or bitcoin
    subnet, with no system and no verified-application subnet (the list is
    absent or empty) and with an application list that is present and empty
    raises the topology-validation failure, so no payload is produced. *)
Theorem empty_topology_is_rejected (req : CreateInstanceRequest) :
  nns req = None -> sns req = None -> ii req = None ->
  fiduciary req = None -> bitcoin req = None ->
  noneListed (system req) ->
  application req = Some [] ->
  noneListed (verifiedApplication req) ->
  encodeCreateInstanceRequest (Some req) = Throw TopologyValidationError.
Proof.
  intros E1 E2 E3 E4 E5 Hs Ha Hv. unfold encodeCreateInstanceRequest.
  rewrite E1, E2, E3, E4, E5, Ha.
  rewrite (encodeManySubnetConfigs_none_listed _ Hs).
  rewrite (encodeManySubnetConfigs_none_listed _ Hv).
  reflexivity.
Qed.

Lemma empty_topology_is_rejected_witness :
  encodeCreateInstanceRequest
    (Some {| nns := None; sns := None; ii := None; fiduciary := None;
             bitcoin := None; system := Some []; application := Some [];
             verifiedApplication := None; processingTimeoutMs := None;
             nonmainnetFeatures := Some true |})
  = Throw TopologyValidationError.
Proof.
  apply empty_topology_is_rejected; try reflexivity.
  - right. reflexivity.
  - left. reflexivity.
Defined.

(** C4.  An absent request is encoded with exactly one subnet, the
    Application subnet [{dts_flag: "Enabled", instruction_config:
    "Production", state_config: "New"}]; and in the encoding of every subnet
    configuration an absent deterministic-time-slicing flag becomes
    ["Enabled"] and an absent benchmarking-instruction-limits flag becomes
    ["Production"]. *)
Theorem create_instance_defaults :
  encodeCreateInstanceRequest None
  = Return {|
      subnet_config_set :=
        {| enc_nns := None; enc_sns := None; enc_ii := None;
           enc_fiduciary := None; enc_bitcoin := None;
           enc_system := [];
           enc_application :=
             [{| dts_flag := Enabled; instruction_config := Production;
                 state_config := New |}];
           enc_verified_application := [] |};
      nonmainnet_features := false |}
  /\ encodeDtsFlag None = Enabled
  /\ encodeInstructionConfig None = Production
  /\ (forall config, knownStateType config ->
        exists e, encodeSubnetConfig (Some config) = Return (Some e))
  /\ (forall config e,
        enableDeterministicTimeSlicing config = None ->
        encodeSubnetConfig (Some config) = Return (Some e) ->
        dts_flag e = Enabled)
  /\ (forall config e,
        enableBenchmarkingInstructionLimits config = None ->
        encodeSubnetConfig (Some config) = Return (Some e) ->
        instruction_config e = Production).
Proof.
  split; [reflexivity|]. split; [reflexivity|]. split; [reflexivity|].
  split; [exact encodeSubnetConfig_known|]. split.
  - intros config e Hflag H. apply encodeSubnetConfig_present in H.
    injection H as ->. cbn. now rewrite Hflag.
  - intros config e Hflag H. apply encodeSubnetConfig_present in H.
    injection H as ->. cbn. now rewrite Hflag.
Qed.

Lemma create_instance_defaults_witness :
  dts_flag
    {| dts_flag := Enabled; instruction_config := Benchmarking;
       state_config := FromPath "/state" "AQID" |} = Enabled.
Proof.
  apply (proj1 (proj2 (proj2 (proj2 (proj2 create_instance_defaults))))
           {| enableDeterministicTimeSlicing := None;
              enableBenchmarkingInstructionLimits := Some true;
              state := FromPathSubnetStateConfig "/state"
                         (fromUint8Array [x01; x02; x03]) |});
    reflexivity.
Defined.

(** C9.  When the [application] field of a request is absent, including the
    request [{}], the validation gate does not fire and the encoded
    application list is the single default New Application subnet; and every
    encoding that the function returns holds at least one subnet. *)
Theorem default_application_subnet :
  (forall req e,
     application req = None ->
     encodeCreateInstanceRequest (Some req) = Return e ->
     enc_application (subnet_config_set e) = [encodedDefaultApplicationSubnet])
  /\ (forall req,
        application req = None ->
        encodeCreateInstanceRequest (Some req) <> Throw TopologyValidationError)
  /\ (exists e, encodeCreateInstanceRequest (Some emptyRequest) = Return e)
  /\ (forall req e,
        encodeCreateInstanceRequest req = Return e ->
        1 <= encodedSubnetCount (subnet_config_set e)).
Proof.
  split; [|split; [|split]].
  - intros req e Ha H.
    apply encodeCreateInstanceRequest_returns in H.
    destruct H as (_ & _ & _ & _ & _ & _ & H & _).
    rewrite Ha in H. now injection H as <-.
  - exact absent_application_is_not_rejected.
  - eexists. reflexivity.
  - intros [req|] e H.
    + apply encodeCreateInstanceRequest_returns in H.
      now apply topologyIsInvalid_false.
    + injection H as <-. cbn. lia.
Qed.

Lemma default_application_subnet_witness :
  enc_application
    {| enc_nns := Some encodedDefaultApplicationSubnet; enc_sns := None;
       enc_ii := None; enc_fiduciary := None; enc_bitcoin := None;
       enc_system := [];
       enc_application := [encodedDefaultApplicationSubnet];
       enc_verified_application := [] |}
  = [encodedDefaultApplicationSubnet].
Proof.
  apply (proj1 default_application_subnet
           {| nns := Some defaultApplicationSubnet; sns := None; ii := None;
              fiduciary := None; bitcoin := None; system := None;
              application := None; verifiedApplication := None;
              processingTimeoutMs := None; nonmainnetFeatures := None |}
           {| subnet_config_set :=
                {| enc_nns := Some encodedDefaultApplicationSubnet;
                   enc_sns := None; enc_ii := None; enc_fiduciary := None;
                   enc_bitcoin := None; enc_system := [];
                   enc_application := [encodedDefaultApplicationSubnet];
                   enc_verified_application := [] |};
              nonmainnet_features := false |});
    reflexivity.
Defined.

End CreateInstanceFacts.

(** ** Unknown wire tags *)

Section UnknownTags.

Import GetTopology GetPendingHttpsOutcalls MockPendingHttpsOutcall.

Lemma eqb_of_neq (a b : string) : a <> b -> String.eqb a b = false.
Proof. intros H. now apply String.eqb_neq. Qed.

(** Every token that the type lists is decoded. *)
Lemma decodeSubnetKind_known (kind : string) :
  In kind knownSubnetKinds -> exists t, decodeSubnetKind kind = Return t.
Proof.
  cbn [In knownSubnetKinds].
  intros [<-|[<-|[<-|[<-|[<-|[<-|[<-|[]]]]]]]]; eexists; reflexivity.
Qed.

(** C6.  An unknown tag is never given a default: [decodeSubnetKind] raises
    on every token outside the seven known ones, [decodeCanisterHttpMethod]
    raises on every token other than GET, POST and HEAD, and
    [encodeHttpsOutcallResponse] raises on every mock response whose type is
    neither ['success'] nor ['reject']. *)
Theorem unknown_tags_are_fatal :
  (forall kind, ~ In kind knownSubnetKinds ->
     decodeSubnetKind kind = Throw (Error ("Unknown subnet kind: " ++ kind)))
  /\ (forall method,
        method <> "GET" -> method <> "POST" -> method <> "HEAD" ->
        decodeCanisterHttpMethod method
        = Throw (Error ("Unknown canister HTTP method: " ++ method)))
  /\ (forall res,
        type res <> "success" -> type res <> "reject" ->
        encodeHttpsOutcallResponse res
        = Throw (Error "Unknown response type: [object Object]")).
Proof.
  split; [|split].
  - intros kind H. cbn [In knownSubnetKinds] in H. unfold decodeSubnetKind.
    rewrite !eqb_of_neq; [reflexivity|..]; intros ->; apply H; tauto.
  - intros method H1 H2 H3. unfold decodeCanisterHttpMethod.
    now rewrite !eqb_of_neq.
  - intros res H1 H2. unfold encodeHttpsOutcallResponse.
    now rewrite !eqb_of_neq.
Qed.

Lemma unknown_tags_are_fatal_witness :
  decodeSubnetKind "Unknown"
  = Throw (Error "Unknown subnet kind: Unknown")
  /\ decodeCanisterHttpMethod "PUT"
     = Throw (Error "Unknown canister HTTP method: PUT")
  /\ encodeHttpsOutcallResponse
       {| type := "timeout"; statusCode := of_Z 504; headers := [];
          body := []; message := "" |}
     = Throw (Error "Unknown response type: [object Object]").
Proof.
  split; [|split].
  - apply (proj1 unknown_tags_are_fatal "Unknown").
    cbn [In knownSubnetKinds]. intros H.
    repeat (destruct H as [H|H]; [discriminate H|]). exact H.
  - apply (proj1 (proj2 unknown_tags_are_fatal) "PUT"); discriminate.
  - apply (proj2 (proj2 unknown_tags_are_fatal)); cbn; discriminate.
Defined.

End UnknownTags.

(** ** Safe integers are numbers *)

Section SafeIntegers.

Local Open Scope Q_scope.

Lemma two_pow_nonneg (k : Z) : (0 <= k)%Z -> two_pow k == inject_Z (2 ^ k).
Proof. intros H. unfold two_pow. rewrite (Zpower_Qpower 2 k H). reflexivity. Qed.

Lemma two_pow_positive (k : Z) : 0 < two_pow k.
Proof. unfold two_pow. apply Qpower_0_lt. reflexivity. Qed.

Lemma round_half_even_integer (x : Q) (m : Z) :
  x == inject_Z m -> round_half_even x = m.
Proof.
  intros E. unfold round_half_even.
  rewrite (Qfloor_comp _ _ E), Qfloor_Z.
  assert (L : x - inject_Z m < 1 # 2) by (rewrite E; ring_simplify; reflexivity).
  assert (C : Qcompare (x - inject_Z m) (1 # 2) = Lt) by (now apply Qlt_alt).
  now rewrite C.
Qed.

Lemma ilog2_integer (a : Z) :
  (0 < a)%Z -> ilog2 (inject_Z a) = Z.log2 a.
Proof.
  intros Ha.
  assert (T : Qle_bool (two_pow (Z.log2 a)) (inject_Z a) = true).
  { apply Qle_bool_iff. rewrite two_pow_nonneg by apply Z.log2_nonneg.
    rewrite <- Zle_Qle. now apply Z.log2_spec. }
  unfold ilog2. cbn [Qnum Qden inject_Z].
  change (Z.log2 1) with 0%Z. rewrite Z.sub_0_r.
  change (a # 1) with (inject_Z a). now rewrite T.
Qed.

(** An integer below 2^53 in magnitude is a whole multiple of the unit in
    its last place, so the rounding leaves it alone. *)
Lemma round_unbounded_integer (p : Z) :
  (Z.abs p < 2 ^ 53)%Z -> round_unbounded (inject_Z p) == inject_Z p.
Proof.
  intros Hp. unfold round_unbounded.
  destruct (Qeq_bool (inject_Z p) 0) eqn:Z0.
  - apply Qeq_bool_iff in Z0. now rewrite Z0.
  - assert (Hnz : p <> 0%Z).
    { intros ->. discriminate Z0. }
    assert (Ha : (0 < Z.abs p)%Z) by lia.
    unfold ulp_exponent.
    change (Qabs (inject_Z p)) with (inject_Z (Z.abs p)).
    rewrite (ilog2_integer _ Ha).
    assert (HL : (0 <= Z.log2 (Z.abs p) < 53)%Z).
    { split; [apply Z.log2_nonneg|]. apply Z.log2_lt_pow2; lia. }
    rewrite Z.max_l by lia.
    set (j := (52 - Z.log2 (Z.abs p))%Z).
    replace (Z.log2 (Z.abs p) - 52)%Z with (- j)%Z by (unfold j; lia).
    assert (Hj : (0 <= j)%Z) by (unfold j; lia).
    assert (P : two_pow (- j) == / inject_Z (2 ^ j)).
    { unfold two_pow. rewrite Qpower_opp.
      rewrite (Zpower_Qpower 2 j Hj). reflexivity. }
    assert (Pnz : ~ inject_Z (2 ^ j) == 0).
    { assert (Hpos : (0 < 2 ^ j)%Z) by (apply Z.pow_pos_nonneg; lia).
      intros H. apply (Qlt_not_eq 0 (inject_Z (2 ^ j))).
      - change 0 with (inject_Z 0). now rewrite <- Zlt_Qlt.
      - now symmetry. }
    assert (E : inject_Z p / two_pow (- j) == inject_Z (p * 2 ^ j)).
    { rewrite P, inject_Z_mult. field. exact Pnz. }
    rewrite (round_half_even_integer _ _ E).
    rewrite P, inject_Z_mult. field. exact Pnz.
Qed.

Lemma Qred_inject_Z (p : Z) : Qred (inject_Z p) = inject_Z p.
Proof.
  unfold Qred, inject_Z.
  pose proof (Z.ggcd_gcd p 1) as G. pose proof (Z.ggcd_correct_divisors p 1) as D.
  destruct (Z.ggcd p 1) as [g [a b]]. cbn [fst snd] in *.
  rewrite Z.gcd_1_r in G. subst g. destruct D as [D1 D2].
  rewrite Z.mul_1_l in D1, D2. now subst a b.
Qed.

Lemma safe_integer_below_MAX_VALUE (p : Z) :
  (Z.abs p < 2 ^ 53)%Z -> Qabs (inject_Z p) <= MAX_VALUE.
Proof.
  intros Hp. change (Qabs (inject_Z p)) with (inject_Z (Z.abs p)).
  apply Qle_trans with (inject_Z (2 ^ 53)).
  - rewrite <- Zle_Qle. lia.
  - apply Qle_bool_iff. vm_compute. reflexivity.
Qed.

(** A safe integer is a number: rounding leaves it as it is. *)
Lemma of_Z_safe (p : Z) :
  (Z.abs p < 2 ^ 53)%Z -> of_Z p = Num (Qc_of_Z p).
Proof.
  intros Hp. unfold of_Z, round64.
  pose proof (round_unbounded_integer p Hp) as E.
  assert (B : Qle_bool (Qabs (round_unbounded (inject_Z p))) MAX_VALUE = true).
  { apply Qle_bool_iff. rewrite E. now apply safe_integer_below_MAX_VALUE. }
  rewrite B. f_equal. apply Qc_is_canon. cbn [this Q2Qc Qc_of_Z].
  now rewrite !Qred_correct.
Qed.

Lemma representable_safe_integer (p : Z) :
  (Z.abs p < 2 ^ 53)%Z -> representable (Qc_of_Z p).
Proof.
  intros Hp. unfold representable, Qc_of_Z. cbn [this Q2Qc].
  rewrite Qred_inject_Z. now apply of_Z_safe.
Qed.

End SafeIntegers.

(** ** Time: milliseconds and nanoseconds *)

Section TimeConversion.

Local Open Scope Qc_scope.

(** The rounding model computes what the binary64 unit computes: on a grid
    of sample values, every product and quotient agrees with the kernel's
    primitive floating-point operations. *)
Example binary64_agreement :
  let samples :=
    [0; 1; 3; 7; 1000000; 1730592000001; 1730592000002; 65535;
     0x1.999999999999ap-4; 0x1.3333333333333p-2; -0x1.4p+1;
     0x0.0000000000001p-1022; 0x1p-1022; 0x1.fffffffffffffp+1023;
     0x1.1ccf385ebc8ap+1023; 0x1.87e92154ef7acp-665; 0x1p+53;
     0x1.e0f3c0ca42830p+68]%float in
  forallb (fun a =>
    forallb (fun b =>
      number_eqb (mul (of_float a) (of_float b)) (of_float (a * b)%float)
      || (isNaN (mul (of_float a) (of_float b)) && isNaN (of_float (a * b)%float)))
      samples
    && forallb (fun b =>
      number_eqb (div (of_float a) (of_float b)) (of_float (a / b)%float)
      || (isNaN (div (of_float a) (of_float b)) && isNaN (of_float (a / b)%float)))
      samples)
    samples = true.
Proof. vm_compute. reflexivity. Qed.

Lemma of_Z_million : of_Z 1000000 = Num (Qc_of_Z 1000000).
Proof.
  unfold of_Z, round64.
  replace (Qle_bool (Qabs (round_unbounded (inject_Z 1000000))) MAX_VALUE)
    with true by (vm_compute; reflexivity).
  f_equal. apply Qc_is_canon. vm_compute. reflexivity.
Qed.

Lemma million_not_zero : is_zero (Qc_of_Z 1000000) = false.
Proof. vm_compute. reflexivity. Qed.

Lemma mul_div_million (t : Qc) : t * Qc_of_Z 1000000 / Qc_of_Z 1000000 = t.
Proof.
  field. intros H. apply (f_equal this) in H. vm_compute in H. discriminate H.
Qed.

(** Without the premise of exact representability the round trip can miss:
    1730592000002 ms times 1,000,000 is not a binary64 value, and dividing
    its rounding gives a neighbour of the original timestamp. *)
Example round_trip_needs_exactness :
  SetTime.readBack (of_Z 1730592000002) <> of_Z 1730592000002
  /\ Number_toString (SetTime.readBack (of_Z 1730592000002))
     = "1730592000001.9998"%string.
Proof.
  split; [|vm_compute; reflexivity].
  intros H. apply (f_equal (fun x => number_eqb x (of_Z 1730592000002))) in H.
  vm_compute in H. discriminate H.
Qed.

Lemma readBack_exact (t : Qc) :
  representable t ->
  representable (t * Qc_of_Z 1000000) ->
  SetTime.readBack (Num t) = Num t.
Proof.
  intros Ht Hn. unfold SetTime.readBack, SetTime.encodeSetTimeRequest,
    GetTime.decodeGetTimeResponse.
  cbn [SetTime.millisSinceEpoch SetTime.nanos_since_epoch
       GetTime.nanos_since_epoch GetTime.millisSinceEpoch].
  rewrite of_Z_million. cbn [mul]. rewrite Hn. cbn [div].
  rewrite million_not_zero, mul_div_million. exact Ht.
Qed.

(** In particular every whole number of milliseconds whose nanoseconds stay
    below 2^53 (the first 104 days of the epoch) is read back unchanged. *)
Corollary readBack_safe_integer (t : Z) :
  (Z.abs (t * 1000000) < 2 ^ 53)%Z ->
  SetTime.readBack (of_Z t) = of_Z t.
Proof.
  intros H. assert (Ht : (Z.abs t < 2 ^ 53)%Z) by lia.
  rewrite (of_Z_safe t Ht). apply readBack_exact.
  - now apply representable_safe_integer.
  - replace (Qc_of_Z t * Qc_of_Z 1000000) with (Qc_of_Z (t * 1000000)).
    + now apply representable_safe_integer.
    + apply Qc_is_canon. cbn [this Q2Qc Qc_of_Z Qcmult].
      rewrite !Qred_correct. rewrite inject_Z_mult. reflexivity.
Qed.

(** C5.  [encodeSetTimeRequest] multiplies the milliseconds by 1,000,000 and
    [decodeGetTimeResponse] divides the nanoseconds by 1,000,000, both in
    binary64 arithmetic; the product (quotient) is exact whenever the exact
    result is a binary64 value; and for every timestamp [t] whose
    nanoseconds [t * 1,000,000] are a binary64 value, decoding the encoding
    of [t] returns [t]. *)
Theorem time_conversion_exact :
  (forall req,
     SetTime.nanos_since_epoch (SetTime.encodeSetTimeRequest req)
     = mul (SetTime.millisSinceEpoch req) (of_Z 1000000))
  /\ (forall res,
        GetTime.millisSinceEpoch (GetTime.decodeGetTimeResponse res)
        = div (GetTime.nanos_since_epoch res) (of_Z 1000000))
  /\ (forall t : Qc,
        representable (t * Qc_of_Z 1000000) ->
        SetTime.encodeSetTimeRequest {| SetTime.millisSinceEpoch := Num t |}
        = {| SetTime.nanos_since_epoch := Num (t * Qc_of_Z 1000000) |})
  /\ (forall n : Qc,
        representable (n / Qc_of_Z 1000000) ->
        GetTime.decodeGetTimeResponse {| GetTime.nanos_since_epoch := Num n |}
        = {| GetTime.millisSinceEpoch := Num (n / Qc_of_Z 1000000) |})
  /\ (forall t : Qc,
        representable t ->
        representable (t * Qc_of_Z 1000000) ->
        SetTime.readBack (Num t) = Num t).
Proof.
  split; [reflexivity|]. split; [reflexivity|]. split; [|split].
  - intros t H. unfold SetTime.encodeSetTimeRequest. cbn [SetTime.millisSinceEpoch].
    rewrite of_Z_million. cbn [mul]. now rewrite H.
  - intros n H. unfold GetTime.decodeGetTimeResponse.
    cbn [GetTime.nanos_since_epoch].
    rewrite of_Z_million. cbn [div]. rewrite million_not_zero. now rewrite H.
  - exact readBack_exact.
Qed.

Lemma number_eqb_eq (a b : number) : number_eqb a b = true -> a = b.
Proof.
  destruct a as [x| | |], b as [y| | |]; try discriminate; try reflexivity.
  cbn [number_eqb]. intros H. f_equal. apply Qc_is_canon.
  now apply Qeq_bool_iff.
Qed.

Lemma representable_by_computation (q : Qc) :
  number_eqb (round64 q) (Num q) = true -> representable q.
Proof. apply number_eqb_eq. Qed.

Lemma time_conversion_exact_witness :
  SetTime.readBack (Num (Qc_of_Z 1730592000000)) = Num (Qc_of_Z 1730592000000).
Proof.
  apply (proj2 (proj2 (proj2 (proj2 time_conversion_exact)))).
  - apply representable_by_computation. vm_compute. reflexivity.
  - apply representable_by_computation. vm_compute. reflexivity.
Defined.

End TimeConversion.

(** ** Starting the server *)

Section Readiness.

Import PocketIcServer.

Local Open Scope N_scope.

(** A safe integer is printed as its decimal numeral. *)
Lemma Number_toString_integer (p : Z) :
  (Z.abs p <= 2 ^ 53)%Z ->
  Number_toString (Num (Qc_of_Z p)) = string_of_Z p.
Proof.
  intros Hp. unfold Number_toString, Qc_of_Z. cbn [this Q2Qc].
  pose proof (Qred_correct (inject_Z p)) as E.
  assert (F : Qfloor (Qred (inject_Z p)) = p)
    by (rewrite (Qfloor_comp _ _ E); apply Qfloor_Z).
  assert (S : is_safe_integer (Qred (inject_Z p)) = true).
  { unfold is_safe_integer. rewrite F. apply andb_true_intro. split.
    - now apply Qeq_bool_iff.
    - apply Qle_bool_iff. rewrite E. cbn [Qabs inject_Z].
      change (Z.abs p # 1)%Q with (inject_Z (Z.abs p)).
      now rewrite <- Zle_Qle. }
  now rewrite S, F.
Qed.

(** When every attempt fails with the same exception, [poll] makes one
    attempt per multiple of the interval and rejects at the last one. *)
Lemma pollFrom_all_fail {A : Type} (cb : N -> Result A) (e : JsError)
  (intervalMs : N) (retries : nat) (now : N) :
  (forall t, cb t = Throw e) ->
  pollFrom retries cb intervalMs now
  = (Throw e, now + N.of_nat retries * intervalMs).
Proof.
  intros H. revert now. induction retries as [|r IH]; intros now.
  - cbn [pollFrom]. rewrite H. f_equal. lia.
  - cbn [pollFrom]. rewrite H, IH. f_equal. lia.
Qed.

(** [poll] settles with the first attempt that succeeds. *)
Lemma pollFrom_first_success {A : Type} (cb : N -> Result A)
  (intervalMs : N) (a : A) (k : nat) :
  forall (retries : nat) (now : N),
    (k <= retries)%nat ->
    (forall j, (j < k)%nat ->
       exists e, cb (now + N.of_nat j * intervalMs) = Throw e) ->
    cb (now + N.of_nat k * intervalMs) = Return a ->
    pollFrom retries cb intervalMs now
    = (Return a, now + N.of_nat k * intervalMs).
Proof.
  induction k as [|k IH]; intros retries now Hk Hfail Hok.
  - replace (now + N.of_nat 0 * intervalMs) with now in * by lia.
    destruct retries; cbn [pollFrom]; now rewrite Hok.
  - destruct retries as [|r]; [lia|].
    destruct (Hfail 0%nat) as [e He]; [lia|].
    replace (now + N.of_nat 0 * intervalMs) with now in He by lia.
    cbn [pollFrom]. rewrite He.
    replace (now + N.of_nat (S k) * intervalMs)
      with (now + intervalMs + N.of_nat k * intervalMs) in * by lia.
    apply IH; [lia| |exact Hok].
    intros j Hj. destruct (Hfail (S j)) as [e' He']; [lia|].
    exists e'. rewrite <- He'. f_equal. lia.
Qed.

(** Whatever the callback does, [poll] settles, and no later than the
    timeout. *)
Lemma pollFrom_settles {A : Type} (cb : N -> Result A) (intervalMs : N)
  (retries : nat) (now : N) :
  snd (pollFrom retries cb intervalMs now)
  <= now + N.of_nat retries * intervalMs.
Proof.
  revert now. induction retries as [|r IH]; intros now; cbn [pollFrom].
  - destruct (cb now); cbn [snd]; lia.
  - destruct (cb now); cbn [snd]; [lia|].
    etransitivity; [apply IH|]. lia.
Qed.

Lemma poll_settles_in_time {A : Type} (cb : N -> Result A)
  (intervalMs timeoutMs : N) :
  snd (poll cb intervalMs timeoutMs) <= timeoutMs.
Proof.
  unfold poll. etransitivity; [apply pollFrom_settles|].
  rewrite N2Nat.id, N.add_0_l, N.mul_comm.
  apply N.Div0.mul_div_le.
Qed.

(** C7.  With the binary in place: if at no time the readiness file holds a
    text that parses to a number, [start] fails with the timeout condition,
    after attempts at the multiples of the poll interval and no later than
    the timeout bound; if the file holds a text that parses to the integer
    [p] from some time [t0] within the timeout on, [start] resolves, within
    the timeout, to a server whose [getUrl()] is [http://127.0.0.1:p]. *)
Theorem start_readiness (options : StartServerOptions) (host : Host) :
  binExists host = true ->
  ((forall t, isNaN (parseInt (readFileAsString (portFile host t))) = true) ->
   exists t,
     start options host = (Throw BinTimeoutError, t)
     /\ t <= POLL_TIMEOUT_MS
     /\ t mod POLL_INTERVAL_MS = 0)
  /\ (forall (t0 : N) (p : Z),
        t0 <= POLL_TIMEOUT_MS ->
        (Z.abs p < 2 ^ 53)%Z ->
        (forall t, t < t0 ->
           isNaN (parseInt (readFileAsString (portFile host t))) = true) ->
        (forall t, t0 <= t ->
           parseInt (readFileAsString (portFile host t)) = of_Z p) ->
        exists server t,
          start options host = (Return server, t)
          /\ t0 <= t <= POLL_TIMEOUT_MS
          /\ getUrl server = ("http://127.0.0.1:" ++ string_of_Z p)%string).
Proof.
  intros Hbin. unfold start. rewrite Hbin. cbn [negb]. split.
  - intros Hnever. eexists. split; [|split].
    + unfold poll. apply pollFrom_all_fail. intros t. unfold readPort.
      now rewrite Hnever.
    + vm_compute. discriminate.
    + vm_compute. reflexivity.
  - intros t0 p Ht0 Hp Hbefore Hafter.
    set (k := N.to_nat ((t0 + 19) / 20)).
    assert (Hk : N.of_nat k = (t0 + 19) / 20) by (unfold k; lia).
    unfold POLL_TIMEOUT_MS, POLL_INTERVAL_MS in *.
    exists (new (spawn options host) (of_Z p)), (0 + N.of_nat k * 20).
    split; [|split].
    + unfold poll. apply pollFrom_first_success.
      * change (N.to_nat (30000 / 20)) with 1500%nat. lia.
      * intros j Hj. exists BinTimeoutError. unfold readPort.
        rewrite Hbefore; [reflexivity|]. lia.
      * unfold readPort. rewrite Hafter by lia.
        rewrite (of_Z_safe p Hp). reflexivity.
    + lia.
    + unfold getUrl, new. cbn [url]. rewrite (of_Z_safe p Hp).
      rewrite Number_toString_integer by lia. reflexivity.
Qed.

Lemma start_readiness_witness :
  exists server t,
    start quietOptions readyHost = (Return server, t)
    /\ 130 <= t <= POLL_TIMEOUT_MS
    /\ getUrl server = "http://127.0.0.1:8080"%string.
Proof.
  apply (proj2 (start_readiness quietOptions readyHost eq_refl) 130 8080%Z).
  - vm_compute. discriminate.
  - vm_compute. reflexivity.
  - intros t Ht. cbn [portFile readyHost]. apply N.ltb_lt in Ht.
    now rewrite Ht.
  - intros t Ht. cbn [portFile readyHost]. apply N.ltb_ge in Ht. rewrite Ht.
    apply number_eqb_eq. vm_compute. reflexivity.
Defined.

(** The two runs, computed: 1501 attempts end at 30 s with the timeout
    condition; the eighth attempt, at 140 ms, finds the port. *)
Example start_on_silent_host :
  start quietOptions silentHost = (Throw BinTimeoutError, 30000).
Proof. vm_compute. reflexivity. Qed.

Example start_on_ready_host :
  snd (start quietOptions readyHost) = 140
  /\ match fst (start quietOptions readyHost) with
     | Return server => getUrl server = "http://127.0.0.1:8080"%string
     | Throw _ => False
     end.
Proof. split; vm_compute; reflexivity. Qed.

End Readiness.

(** ** Stopping the server *)

Section Stopping.

Import PocketIcServer.

Lemma nth_error_settle (p i : nat) (outcome : PromiseState)
  (ps : list PromiseState) :
  nth_error (settle p outcome ps) i
  = if Nat.eqb i p then
      match nth_error ps i with
      | Some Pending => Some outcome
      | other => other
      end
    else nth_error ps i.
Proof.
  revert p i. induction ps as [|x ps IH]; intros p i.
  - cbn. destruct i, p; cbn; try reflexivity; now destruct (Nat.eqb i p).
  - destruct p as [|p], i as [|i]; cbn [settle nth_error Nat.eqb].
    + destruct x; reflexivity.
    + reflexivity.
    + reflexivity.
    + apply IH.
Qed.

















(** How the listener of [start] meets an ['error']: it is the first
    listener, and it throws.  When the signal of [stop()] is refused, the
    exception leaves the executor and is the reason of the rejection; when
    the process reports an error on its own, the exception is uncaught and
    the promise of [stop()] stays pending. *)
Remark error_listener_of_start_comes_first :
  promiseState (fst (stop (Refused (Error "EPERM")) (boot exampleServer))) 0
  = Some (Rejected BinStartError)
  /\ promiseState
       (processErrors (Error "EPERM")
          (fst (stop Delivered (boot exampleServer)))) 0
     = Some Pending
  /\ uncaught
       (processErrors (Error "EPERM")
          (fst (stop Delivered (boot exampleServer))))
     = [BinStartError].
Proof. repeat split. Qed.

End Stopping.

(* ================================================================== *)
(** * Part III. Further properties of the codec and the supervisor *)
(* ================================================================== *)

(** ** Creating an instance: the gate, the exceptions, the fields *)

Section CreateInstanceMore.

Import CreateInstance.

Lemma encodeSubnetConfig_nil (config : option SubnetConfig) :
  encodeSubnetConfig config = Return None -> config = None.
Proof.
  destruct config as [c|]; [|reflexivity].
  intros H. apply encodeSubnetConfig_present in H. discriminate H.
Qed.

Lemma encodeSubnetConfig_exception (config : option SubnetConfig)
  (e : JsError) :
  encodeSubnetConfig config = Throw e -> e = unknownSubnetState.
Proof.
  destruct config as [config|]; cbn [encodeSubnetConfig]; [|discriminate].
  destruct (String.eqb _ _); [discriminate|].
  destruct (String.eqb _ _); [discriminate|].
  now intros [= <-].
Qed.

Lemma encodeManySubnetConfigs_exception
  (configs : option (list SubnetConfig)) (e : JsError) :
  encodeManySubnetConfigs configs = Throw e -> e = unknownSubnetState.
Proof.
  unfold encodeManySubnetConfigs.
  generalize (match configs with Some cs => cs | None => [] end) as cs.
  induction cs as [|c cs IH]; cbn [mapM bind]; [discriminate|].
  destruct (encodeSubnetConfig (Some c)) as [x|e'] eqn:E; cbn [bind].
  - destruct (mapM _ cs) as [xs|e'']; cbn [bind] in *; [discriminate|].
    exact IH.
  - intros [= <-]. now apply encodeSubnetConfig_exception in E.
Qed.

Lemma length_of_nil {A : Type} (xs : list A) :
  (length_of xs =? 0)%Z = true <-> xs = [].
Proof.
  unfold length_of. destruct xs as [|x xs]; cbn [List.length].
  - split; reflexivity.
  - split; [|discriminate]. intros H. apply Z.eqb_eq in H. lia.
Qed.

Lemma length_of_not_negative {A : Type} (xs : list A) :
  (length_of xs <? 0)%Z = false.
Proof. unfold length_of. apply Z.ltb_ge. lia. Qed.

Lemma topologyIsInvalid_true (s : EncodedCreateInstanceSubnetConfig) :
  topologyIsInvalid s = true
  <-> enc_nns s = None /\ enc_sns s = None /\ enc_ii s = None
      /\ enc_fiduciary s = None /\ enc_bitcoin s = None
      /\ enc_system s = [] /\ enc_application s = [].
Proof.
  unfold topologyIsInvalid. rewrite !length_of_not_negative, !orb_false_r.
  rewrite !andb_true_iff, !length_of_nil.
  destruct (enc_nns s), (enc_sns s), (enc_ii s), (enc_fiduciary s),
    (enc_bitcoin s); cbn [isNil]; intuition congruence.
Qed.

(** X1.  The validation gate fires exactly when none of the five single
    roles is encoded and the encoded system and application lists are both
    empty: the two tests for a negative length never hold, and the
    verified-application list is not looked at. *)
Theorem topology_gate_condition (s : EncodedCreateInstanceSubnetConfig) :
  topologyIsInvalid s = true
  <-> enc_nns s = None /\ enc_sns s = None /\ enc_ii s = None
      /\ enc_fiduciary s = None /\ enc_bitcoin s = None
      /\ enc_system s = [] /\ enc_application s = [].
Proof. exact (topologyIsInvalid_true s). Qed.

Lemma topology_gate_condition_witness :
  topologyIsInvalid
    {| enc_nns := None; enc_sns := None; enc_ii := None;
       enc_fiduciary := None; enc_bitcoin := None;
       enc_system := []; enc_application := [];
       enc_verified_application := [encodedDefaultApplicationSubnet] |}
  = true.
Proof.
  apply (proj2 (topology_gate_condition _)). repeat split.
Defined.

(** How the encoder ends, field by field. *)
Lemma encodeCreateInstanceRequest_throws (req : CreateInstanceRequest)
  (e : JsError) :
  encodeCreateInstanceRequest (Some req) = Throw e ->
  e = unknownSubnetState
  \/ (e = TopologyValidationError
      /\ exists e1 e2 e3 e4 e5 e6 e7 e8,
           encodeSubnetConfig (nns req) = Return e1
           /\ encodeSubnetConfig (sns req) = Return e2
           /\ encodeSubnetConfig (ii req) = Return e3
           /\ encodeSubnetConfig (fiduciary req) = Return e4
           /\ encodeSubnetConfig (bitcoin req) = Return e5
           /\ encodeManySubnetConfigs (system req) = Return e6
           /\ encodeManySubnetConfigs
                (match application req with
                 | Some configs => Some configs
                 | None => Some [defaultApplicationSubnet]
                 end) = Return e7
           /\ encodeManySubnetConfigs (verifiedApplication req) = Return e8
           /\ topologyIsInvalid
                {| enc_nns := e1; enc_sns := e2; enc_ii := e3;
                   enc_fiduciary := e4; enc_bitcoin := e5;
                   enc_system := e6; enc_application := e7;
                   enc_verified_application := e8 |} = true).
Proof.
  unfold encodeCreateInstanceRequest.
  destruct (encodeSubnetConfig (nns req)) as [e1|] eqn:E1; cbn [bind];
    [|intros [= <-]; left; now apply encodeSubnetConfig_exception in E1].
  destruct (encodeSubnetConfig (sns req)) as [e2|] eqn:E2; cbn [bind];
    [|intros [= <-]; left; now apply encodeSubnetConfig_exception in E2].
  destruct (encodeSubnetConfig (ii req)) as [e3|] eqn:E3; cbn [bind];
    [|intros [= <-]; left; now apply encodeSubnetConfig_exception in E3].
  destruct (encodeSubnetConfig (fiduciary req)) as [e4|] eqn:E4; cbn [bind];
    [|intros [= <-]; left; now apply encodeSubnetConfig_exception in E4].
  destruct (encodeSubnetConfig (bitcoin req)) as [e5|] eqn:E5; cbn [bind];
    [|intros [= <-]; left; now apply encodeSubnetConfig_exception in E5].
  destruct (encodeManySubnetConfigs (system req)) as [e6|] eqn:E6;
    cbn [bind];
    [|intros [= <-]; left; now apply encodeManySubnetConfigs_exception in E6].
  destruct (encodeManySubnetConfigs
              match application req with
              | Some configs => Some configs
              | None => Some [defaultApplicationSubnet]
              end) as [e7|] eqn:E7; cbn [bind];
    [|intros [= <-]; left; now apply encodeManySubnetConfigs_exception in E7].
  destruct (encodeManySubnetConfigs (verifiedApplication req)) as [e8|] eqn:E8;
    cbn [bind];
    [|intros [= <-]; left; now apply encodeManySubnetConfigs_exception in E8].
  cbn [subnet_config_set].
  destruct (topologyIsInvalid _) eqn:T; [|discriminate].
  intros [= <-]. right. split; [reflexivity|].
  exists e1, e2, e3, e4, e5, e6, e7, e8. repeat split; assumption.
Qed.

(** X2.  [encodeCreateInstanceRequest] raises nothing but the
    topology-validation failure and the error of an unknown subnet state
    type. *)
Theorem create_instance_exceptions (req : option CreateInstanceRequest)
  (e : JsError) :
  encodeCreateInstanceRequest req = Throw e ->
  e = TopologyValidationError \/ e = unknownSubnetState.
Proof.
  destruct req as [req|]; [|discriminate].
  intros H. apply encodeCreateInstanceRequest_throws in H.
  destruct H as [H|[H _]]; tauto.
Qed.

Lemma create_instance_exceptions_witness :
  Error "Unknown subnet state type: [object Object]" = TopologyValidationError
  \/ Error "Unknown subnet state type: [object Object]" = unknownSubnetState.
Proof.
  apply (create_instance_exceptions
           (Some {| nns := Some {| enableDeterministicTimeSlicing := None;
                                   enableBenchmarkingInstructionLimits := None;
                                   state := {| type := "fromSnapshot";
                                               path := "";
                                               subnetId := fromUint8Array [] |} |};
                    sns := None; ii := None; fiduciary := None;
                    bitcoin := None; system := None; application := Some [];
                    verifiedApplication := None; processingTimeoutMs := None;
                    nonmainnetFeatures := None |})).
  reflexivity.
Defined.

Lemma count_listed_zero {A : Type} (xs : option (list A)) :
  count_listed xs = 0%nat -> noneListed xs.
Proof.
  destruct xs as [[|x l]|]; cbn; intros H;
    [right; reflexivity | discriminate H | left; reflexivity].
Qed.

(** X3.  A present request is rejected by the gate exactly when it names
    none of the five single roles, no system subnet, an application list
    that is present and empty, and verified-application subnets (any number
    of them) that can all be encoded: verified-application subnets do not
    save a request from the rejection. *)
Theorem rejection_condition (req : CreateInstanceRequest) :
  encodeCreateInstanceRequest (Some req) = Throw TopologyValidationError
  <-> nns req = None /\ sns req = None /\ ii req = None
      /\ fiduciary req = None /\ bitcoin req = None
      /\ noneListed (system req)
      /\ application req = Some []
      /\ exists es,
           encodeManySubnetConfigs (verifiedApplication req) = Return es.
Proof.
  split.
  - intros H. apply encodeCreateInstanceRequest_throws in H.
    destruct H as [H|[_ H]]; [discriminate H|].
    destruct H as (e1 & e2 & e3 & e4 & e5 & e6 & e7 & e8
                   & E1 & E2 & E3 & E4 & E5 & E6 & E7 & E8 & T).
    apply topologyIsInvalid_true in T.
    cbn in T. destruct T as (-> & -> & -> & -> & -> & -> & ->).
    apply encodeSubnetConfig_nil in E1, E2, E3, E4, E5.
    apply encodeManySubnetConfigs_length in E6, E7.
    repeat split; try assumption.
    + apply count_listed_zero. now rewrite <- E6.
    + destruct (application req) as [[|c cs]|]; [reflexivity|discriminate..].
    + now exists e8.
  - intros (E1 & E2 & E3 & E4 & E5 & Hs & Ha & es & Hv).
    unfold encodeCreateInstanceRequest.
    rewrite E1, E2, E3, E4, E5, Ha, Hv.
    rewrite (encodeManySubnetConfigs_none_listed _ Hs). reflexivity.
Qed.

Lemma rejection_condition_witness :
  encodeCreateInstanceRequest
    (Some {| nns := None; sns := None; ii := None; fiduciary := None;
             bitcoin := None; system := None; application := Some [];
             verifiedApplication := Some [defaultApplicationSubnet];
             processingTimeoutMs := None; nonmainnetFeatures := None |})
  = Throw TopologyValidationError.
Proof.
  apply (proj2 (rejection_condition _)).
  split; [reflexivity|]. split; [reflexivity|]. split; [reflexivity|].
  split; [reflexivity|]. split; [reflexivity|].
  split; [left; reflexivity|]. split; [reflexivity|].
  eexists. reflexivity.
Defined.

End CreateInstanceMore.

Section CreateInstanceFields.

Import CreateInstance.

Lemma present_filter_cons (e : EncodedSubnetConfig)
  (xs : list (option EncodedSubnetConfig)) :
  present (filter isNotNil (Some e :: xs)) = e :: present (filter isNotNil xs).
Proof. reflexivity. Qed.

(** X4.  [encodeManySubnetConfigs] encodes the list element by element: the
    result has one encoding per configuration, in the order of the input,
    and each is what [encodeSubnetConfig] returns for that configuration, so
    [filter(isNotNil)] never drops an element. *)
Theorem encodeManySubnetConfigs_pointwise
  (configs : option (list SubnetConfig)) (encoded : list EncodedSubnetConfig) :
  encodeManySubnetConfigs configs = Return encoded ->
  Forall2 (fun config e => encodeSubnetConfig (Some config) = Return (Some e))
          (match configs with Some cs => cs | None => [] end) encoded.
Proof.
  unfold encodeManySubnetConfigs.
  generalize (match configs with Some cs => cs | None => [] end) as cs.
  intros cs. revert encoded.
  induction cs as [|c cs IH]; intros encoded.
  - cbn. intros [= <-]. constructor.
  - cbn [mapM].
    destruct (encodeSubnetConfig (Some c)) as [e|] eqn:E; [|discriminate].
    pose proof (encodeSubnetConfig_present _ _ E) as P.
    cbn [bind].
    destruct (mapM (fun config => encodeSubnetConfig (Some config)) cs)
      as [es|] eqn:M; [|discriminate].
    cbn [bind] in *. rewrite P in E |- *. rewrite present_filter_cons.
    intros [= <-]. constructor.
    + exact E.
    + now apply IH.
Qed.

Lemma encodeManySubnetConfigs_pointwise_witness :
  Forall2 (fun config e => encodeSubnetConfig (Some config) = Return (Some e))
          [defaultApplicationSubnet;
           {| enableDeterministicTimeSlicing := Some false;
              enableBenchmarkingInstructionLimits := Some true;
              state := NewSubnetStateConfig |}]
          [encodedDefaultApplicationSubnet;
           {| dts_flag := Disabled; instruction_config := Benchmarking;
              state_config := New |}].
Proof.
  apply (encodeManySubnetConfigs_pointwise
           (Some [defaultApplicationSubnet;
                  {| enableDeterministicTimeSlicing := Some false;
                     enableBenchmarkingInstructionLimits := Some true;
                     state := NewSubnetStateConfig |}])).
  reflexivity.
Defined.

(** X5.  The encoder never reads [processingTimeoutMs]: two requests that
    differ only in it are encoded alike.  And the wire flag
    [nonmainnet_features] is true only when the request sets
    [nonmainnetFeatures] to true. *)
Theorem create_instance_top_level_fields :
  (forall (timeout : option number) (req : CreateInstanceRequest),
     encodeCreateInstanceRequest (Some (withProcessingTimeoutMs timeout req))
     = encodeCreateInstanceRequest (Some req))
  /\ (forall (req : CreateInstanceRequest) (e : EncodedCreateInstanceRequest),
        encodeCreateInstanceRequest (Some req) = Return e ->
        (nonmainnet_features e = true <-> nonmainnetFeatures req = Some true)).
Proof.
  split.
  - intros timeout req. reflexivity.
  - intros req e. unfold encodeCreateInstanceRequest.
    destruct (encodeSubnetConfig (nns req)); [|discriminate].
    destruct (encodeSubnetConfig (sns req)); [|discriminate].
    destruct (encodeSubnetConfig (ii req)); [|discriminate].
    destruct (encodeSubnetConfig (fiduciary req)); [|discriminate].
    destruct (encodeSubnetConfig (bitcoin req)); [|discriminate].
    destruct (encodeManySubnetConfigs (system req)); [|discriminate].
    cbn [bind].
    destruct (encodeManySubnetConfigs _); [|discriminate]. cbn [bind].
    destruct (encodeManySubnetConfigs _); [|discriminate]. cbn [bind].
    cbn [subnet_config_set].
    destruct (topologyIsInvalid _); [discriminate|].
    intros [= <-]. cbn [nonmainnet_features].
    destruct (nonmainnetFeatures req) as [[|]|]; split; intros H;
      try reflexivity; try discriminate H.
Qed.

(** X6.  The options of the NNS proxy test (an NNS subnet loaded from a state
    directory, nothing else) are encoded as that NNS subnet, with the path
    unchanged and a subnet id that decodes back to the principal, plus the
    one default application subnet that the encoder adds. *)
Theorem nns_proxy_request_encoding (path : string) (subnetId : Principal) :
  encodeCreateInstanceRequest (Some (NnsProxySpec.createOptions path subnetId))
  = Return
      {| subnet_config_set :=
           {| enc_nns :=
                Some {| dts_flag := Enabled; instruction_config := Production;
                        state_config :=
                          FromPath path (base64EncodePrincipal subnetId) |};
              enc_sns := None; enc_ii := None; enc_fiduciary := None;
              enc_bitcoin := None; enc_system := [];
              enc_application := [encodedDefaultApplicationSubnet];
              enc_verified_application := [] |};
         nonmainnet_features := false |}
  /\ base64DecodePrincipal (base64EncodePrincipal subnetId) = Return subnetId.
Proof.
  split; [reflexivity|]. apply base64DecodePrincipal_base64EncodePrincipal.
Qed.

End CreateInstanceFields.

(** ** Arrays mapped with a callback that may throw *)

Section MapM.

Context {A B : Type} (f : A -> Result B).

Lemma mapM_Forall2 (xs : list A) (ys : list B) :
  mapM f xs = Return ys <-> Forall2 (fun x y => f x = Return y) xs ys.
Proof.
  revert ys. induction xs as [|x xs IH]; intros ys; cbn [mapM].
  - split.
    + intros [= <-]. constructor.
    + intros H. inversion H. reflexivity.
  - split.
    + destruct (f x) as [y|] eqn:E; [|discriminate]. cbn [bind].
      destruct (mapM f xs) as [ys'|]; [|discriminate]. cbn [bind].
      intros [= <-]. constructor; [exact E|]. now apply IH.
    + intros H. inversion H as [|x' y xs' ys' Hx Hxs]; subst.
      rewrite Hx. cbn [bind]. apply IH in Hxs. now rewrite Hxs.
Qed.

(** The exception of the first element that fails leaves the loop. *)
Lemma mapM_first_failure (pre : list A) (x : A) (post : list A) (e : JsError) :
  (forall p, In p pre -> exists y, f p = Return y) ->
  f x = Throw e ->
  mapM f (pre ++ x :: post) = Throw e.
Proof.
  intros Hpre Hx. induction pre as [|p pre IH]; cbn [app mapM].
  - now rewrite Hx.
  - destruct (Hpre p) as [y Hy]; [left; reflexivity|].
    rewrite Hy. cbn [bind]. rewrite IH; [reflexivity|].
    intros q Hq. apply Hpre. now right.
Qed.

Lemma mapM_throws (xs : list A) (e : JsError) :
  mapM f xs = Throw e -> exists x, In x xs /\ f x = Throw e.
Proof.
  induction xs as [|x xs IH]; cbn [mapM]; [discriminate|].
  destruct (f x) as [y|e'] eqn:E; cbn [bind].
  - destruct (mapM f xs) as [ys|e'']; cbn [bind]; [discriminate|].
    intros [= <-]. destruct IH as [x' [Hin Hx']]; [reflexivity|].
    exists x'. split; [now right|exact Hx'].
  - intros [= <-]. exists x. split; [now left|exact E].
Qed.

Lemma mapM_returns (xs : list A) :
  (forall x, In x xs -> exists y, f x = Return y) ->
  exists ys, mapM f xs = Return ys.
Proof.
  induction xs as [|x xs IH]; intros H; cbn [mapM]; [eauto|].
  destruct (H x) as [y Hy]; [now left|]. rewrite Hy. cbn [bind].
  destruct IH as [ys Hys]; [intros x' Hx'; apply H; now right|].
  rewrite Hys. cbn [bind]. eauto.
Qed.

End MapM.

(** ** The topology of an instance *)

Section Topology.

Import GetTopology.

Lemma decodeSubnetKind_value (kind : string) (t : SubnetType) :
  decodeSubnetKind kind = Return t <-> kind = subnetTypeValue t.
Proof.
  split.
  - unfold decodeSubnetKind.
    repeat match goal with
           | |- context [String.eqb kind ?token] =>
               destruct (String.eqb_spec kind token) as [->|_];
               [intros [= <-]; reflexivity|]
           end.
    discriminate.
  - intros ->. destruct t; reflexivity.
Qed.

(** X7.  [decodeSubnetKind] inverts the values of [enum SubnetType]: a token
    decodes to a member exactly when it is that member's value, so distinct
    tokens never decode to the same member and the decoded member determines
    the token. *)
Theorem decodeSubnetKind_inverts_values (kind : string) (t : SubnetType) :
  decodeSubnetKind kind = Return t <-> kind = subnetTypeValue t.
Proof. exact (decodeSubnetKind_value kind t). Qed.

Lemma decodeSubnetKind_inverts_values_witness :
  decodeSubnetKind "II" = Return InternetIdentity.
Proof. apply (proj2 (decodeSubnetKind_inverts_values _ _)). reflexivity. Defined.

Lemma decodeSubnetTopology_returns (fromText : string -> Result Principal)
  (subnetId : string) (encoded : EncodedSubnetTopology)
  (topology : SubnetTopology) :
  decodeSubnetTopology fromText subnetId encoded = Return topology ->
  fromText subnetId = Return (id topology)
  /\ subnet_kind encoded = subnetTypeValue (type topology)
  /\ size topology = enc_size encoded
  /\ Forall2 (fun range decoded =>
                base64DecodePrincipal (start_canister_id range)
                = Return (range_start decoded)
                /\ base64DecodePrincipal (end_canister_id range)
                   = Return (range_end decoded))
             (canister_ranges encoded) (canisterRanges topology).
Proof.
  unfold decodeSubnetTopology.
  destruct (fromText subnetId) as [i|]; [|discriminate]. cbn [bind].
  destruct (decodeSubnetKind (subnet_kind encoded)) as [t|] eqn:K;
    [|discriminate].
  cbn [bind].
  destruct (mapM decodeCanisterRange (canister_ranges encoded))
    as [ranges|] eqn:R; [|discriminate].
  cbn [bind]. intros [= <-]. cbn [id type size canisterRanges].
  split; [reflexivity|]. split; [now apply decodeSubnetKind_value|].
  split; [reflexivity|].
  apply mapM_Forall2 in R.
  induction R as [|range decoded rs ds H _ IH]; constructor; [|exact IH].
  unfold decodeCanisterRange in H.
  destruct (base64DecodePrincipal (start_canister_id range)); [|discriminate].
  destruct (base64DecodePrincipal (end_canister_id range)); [|discriminate].
  cbn [bind] in H. injection H as <-. split; reflexivity.
Qed.

(** X8.  When [decodeInstanceTopology] returns, the result has one entry per
    entry of the wire object, under the same key and in the same order; the
    [id] of each entry is what [Principal.fromText] makes of its key, its
    [type] is the member whose value is the wire token, its [size] is the
    wire size unchanged, and its canister ranges are the wire ranges, bound
    by bound, decoded from base64. *)
Theorem decodeInstanceTopology_entries
  (fromText : string -> Result Principal)
  (encoded : EncodedInstanceTopology) (topology : InstanceTopology) :
  decodeInstanceTopology fromText encoded = Return topology ->
  map fst topology = map fst encoded
  /\ Forall2
       (fun wire decoded =>
          fromText (fst wire) = Return (id (snd decoded))
          /\ subnet_kind (snd wire) = subnetTypeValue (type (snd decoded))
          /\ size (snd decoded) = enc_size (snd wire)
          /\ Forall2 (fun range r =>
                        base64DecodePrincipal (start_canister_id range)
                        = Return (range_start r)
                        /\ base64DecodePrincipal (end_canister_id range)
                           = Return (range_end r))
                     (canister_ranges (snd wire))
                     (canisterRanges (snd decoded)))
       encoded topology.
Proof.
  unfold decodeInstanceTopology. intros H. apply mapM_Forall2 in H.
  induction H as [|wire decoded ws ds H _ [IHk IHe]].
  - split; constructor.
  - destruct (decodeSubnetTopology fromText (fst wire) (snd wire))
      as [t|] eqn:E; [|discriminate].
    cbn [bind] in H. injection H as <-.
    apply decodeSubnetTopology_returns in E.
    split; [cbn [map fst]; now rewrite IHk|].
    constructor; [exact E|exact IHe].
Qed.

Lemma decodeInstanceTopology_entries_witness :
  map fst [("aaaaa-aa", {| id := fromUint8Array [];
                           type := NNS;
                           size := Num (Qc_of_Z 13);
                           canisterRanges :=
                             [{| range_start := fromUint8Array [x01; x02; x03];
                                 range_end := fromUint8Array [] |}] |})]
  = map fst [("aaaaa-aa", {| subnet_kind := "NNS";
                             enc_size := Num (Qc_of_Z 13);
                             canister_ranges :=
                               [{| start_canister_id := "AQID";
                                   end_canister_id := "" |}] |})].
Proof.
  apply (decodeInstanceTopology_entries
           (fun text => if String.eqb text "aaaaa-aa"
                        then Return (fromUint8Array [])
                        else Throw MalformedTextError)).
  reflexivity.
Defined.

End Topology.

(** ** Setting the time that was read *)

Section TimeWriteBack.

Local Open Scope Qc_scope.

Lemma div_mul_million (n : Qc) : n / Qc_of_Z 1000000 * Qc_of_Z 1000000 = n.
Proof.
  field. intros H. apply (f_equal this) in H. vm_compute in H. discriminate H.
Qed.

(** X9.  Setting the time that was just read sends the nanoseconds that were
    received: when the nanoseconds [n] and the quotient [n / 1,000,000] are
    both binary64 values, encoding the decoded time gives [n] again. *)
Theorem writeBack_exact (n : Qc) :
  representable n ->
  representable (n / Qc_of_Z 1000000) ->
  SetTime.writeBack (Num n) = Num n.
Proof.
  intros Hn Hq. unfold SetTime.writeBack, SetTime.encodeSetTimeRequest,
    GetTime.decodeGetTimeResponse.
  cbn [SetTime.millisSinceEpoch SetTime.nanos_since_epoch
       GetTime.nanos_since_epoch GetTime.millisSinceEpoch].
  rewrite of_Z_million. cbn [div]. rewrite million_not_zero, Hq. cbn [mul].
  rewrite div_mul_million. exact Hn.
Qed.

Lemma writeBack_exact_witness :
  SetTime.writeBack (Num (Qc_of_Z 1730592000000000000))
  = Num (Qc_of_Z 1730592000000000000).
Proof.
  apply writeBack_exact.
  - apply representable_by_computation. vm_compute. reflexivity.
  - apply representable_by_computation. vm_compute. reflexivity.
Defined.

End TimeWriteBack.

(** ** HTTPS outcalls *)

Section HttpsOutcalls.

Import GetPendingHttpsOutcalls.
Import MockPendingHttpsOutcall.

Lemma decodeHttpHeader_encodeHttpHeader (header : CanisterHttpHeader) :
  decodeHttpHeader (encodeHttpHeader header) = header.
Proof. now destruct header. Qed.

Lemma encodeHttpHeader_decodeHttpHeader (header : EncodedCanisterHttpHeader) :
  encodeHttpHeader (decodeHttpHeader header) = header.
Proof. now destruct header. Qed.

(** X10.  The two header codecs are inverse to each other, on single headers
    and on header lists: a name/value pair and its wire object carry the
    same two strings, in the same order. *)
Theorem http_header_round_trip :
  (forall headers : list CanisterHttpHeader,
     map decodeHttpHeader (map encodeHttpHeader headers) = headers)
  /\ (forall headers : list EncodedCanisterHttpHeader,
        map encodeHttpHeader (map decodeHttpHeader headers) = headers)
  /\ (forall header : CanisterHttpHeader,
        name (encodeHttpHeader header) = fst header
        /\ value (encodeHttpHeader header) = snd header).
Proof.
  split; [|split].
  - intros headers. rewrite map_map. rewrite <- (map_id headers) at 2.
    apply map_ext. exact decodeHttpHeader_encodeHttpHeader.
  - intros headers. rewrite map_map. rewrite <- (map_id headers) at 2.
    apply map_ext. exact encodeHttpHeader_decodeHttpHeader.
  - intros header. split; reflexivity.
Qed.

Lemma encodeHttpsOutcallResponse_returns (res : HttpsOutcallResponseMock)
  (e : EncodedHttpsOutcallResponseMock) :
  encodeHttpsOutcallResponse res = Return e
  <-> (MockPendingHttpsOutcall.type res = "success"
       /\ e = CanisterHttpReply (statusCode res)
                (map encodeHttpHeader (MockPendingHttpsOutcall.headers res))
                (base64Encode (MockPendingHttpsOutcall.body res)))
      \/ (MockPendingHttpsOutcall.type res = "reject"
          /\ e = CanisterHttpReject (statusCode res) (message res)).
Proof.
  unfold encodeHttpsOutcallResponse.
  destruct (String.eqb_spec (MockPendingHttpsOutcall.type res) "success")
    as [S|S].
  - rewrite S. split.
    + intros [= <-]. left. split; reflexivity.
    + intros [[_ ->]|[H _]]; [reflexivity|discriminate H].
  - destruct (String.eqb_spec (MockPendingHttpsOutcall.type res) "reject")
      as [R|R].
    + rewrite R. split.
      * intros [= <-]. right. split; reflexivity.
      * intros [[H _]|[_ ->]]; [discriminate H|reflexivity].
    + split; [discriminate|]. intros [[H _]|[H _]]; contradiction.
Qed.

Lemma encodeHttpsOutcallResponse_known (res : HttpsOutcallResponseMock) :
  knownMockType res <-> exists e, encodeHttpsOutcallResponse res = Return e.
Proof.
  unfold knownMockType. split.
  - intros [H|H]; eexists; apply encodeHttpsOutcallResponse_returns;
      [left|right]; split; [exact H|reflexivity|exact H|reflexivity].
  - intros [e H]. apply encodeHttpsOutcallResponse_returns in H.
    destruct H as [[H _]|[H _]]; [left|right]; exact H.
Qed.

Lemma encodeHttpsOutcallResponse_exception (res : HttpsOutcallResponseMock)
  (e : JsError) :
  encodeHttpsOutcallResponse res = Throw e ->
  e = Error "Unknown response type: [object Object]".
Proof.
  unfold encodeHttpsOutcallResponse.
  destruct (String.eqb _ _); [discriminate|].
  destruct (String.eqb _ _); [discriminate|].
  now intros [= <-].
Qed.

(** X11.  A mock response is encoded according to its [type] alone: a
    ['success'] response becomes a [CanisterHttpReply] with the status code,
    the headers as wire objects and the body in base64, which decodes back
    to the body; a ['reject'] response becomes a [CanisterHttpReject] whose
    [reject_code] is the status code; and nothing else is ever returned. *)
Theorem mock_response_encoding (res : HttpsOutcallResponseMock)
  (e : EncodedHttpsOutcallResponseMock) :
  encodeHttpsOutcallResponse res = Return e ->
  (MockPendingHttpsOutcall.type res = "success"
   /\ exists wireBody,
        e = CanisterHttpReply (statusCode res)
              (map encodeHttpHeader (MockPendingHttpsOutcall.headers res))
              wireBody
        /\ base64Decode wireBody = Return (MockPendingHttpsOutcall.body res))
  \/ (MockPendingHttpsOutcall.type res = "reject"
      /\ e = CanisterHttpReject (statusCode res) (message res)).
Proof.
  intros H. apply encodeHttpsOutcallResponse_returns in H.
  destruct H as [[T ->]|[T ->]]; [left|right]; split; try exact T;
    try reflexivity.
  eexists. split; [reflexivity|].
  apply Base64Facts.base64Decode_base64Encode.
Qed.

Lemma mock_response_encoding_witness :
  (MockPendingHttpsOutcall.type
     {| MockPendingHttpsOutcall.type := "reject"; statusCode := of_Z 4;
        MockPendingHttpsOutcall.headers := [("a", "b")];
        MockPendingHttpsOutcall.body := [x01]; message := "no" |} = "success"
   /\ exists wireBody,
        CanisterHttpReject (of_Z 4) "no"
        = CanisterHttpReply (of_Z 4) [{| name := "a"; value := "b" |}] wireBody
        /\ base64Decode wireBody = Return [x01])
  \/ ("reject" = "reject"
      /\ CanisterHttpReject (of_Z 4) "no" = CanisterHttpReject (of_Z 4) "no").
Proof.
  apply (mock_response_encoding
           {| MockPendingHttpsOutcall.type := "reject"; statusCode := of_Z 4;
              MockPendingHttpsOutcall.headers := [("a", "b")];
              MockPendingHttpsOutcall.body := [x01]; message := "no" |}).
  reflexivity.
Defined.

(** X12.  [encodeMockPendingHttpsOutcallRequest] returns exactly when the
    response and every additional response have a known type; it then keeps
    the request id, encodes the subnet id so that it decodes back, and
    encodes the additional responses one by one in their order; and when it
    raises, the exception is that of an unknown response type. *)
Theorem mock_request_encoding (req : MockPendingHttpsOutcallRequest) :
  ((exists e, encodeMockPendingHttpsOutcallRequest req = Return e)
   <-> knownMockType (response req)
       /\ Forall knownMockType (additionalResponses req))
  /\ (forall e,
        encodeMockPendingHttpsOutcallRequest req = Return e ->
        MockPendingHttpsOutcall.request_id e
        = MockPendingHttpsOutcall.requestId req
        /\ base64DecodePrincipal (MockPendingHttpsOutcall.subnet_id e)
           = Return (MockPendingHttpsOutcall.subnetId req)
        /\ encodeHttpsOutcallResponse (response req) = Return (enc_response e)
        /\ Forall2 (fun res wire => encodeHttpsOutcallResponse res = Return wire)
                   (additionalResponses req) (additional_responses e))
  /\ (forall err,
        encodeMockPendingHttpsOutcallRequest req = Throw err ->
        err = Error "Unknown response type: [object Object]").
Proof.
  unfold encodeMockPendingHttpsOutcallRequest. split; [|split].
  - split.
    + intros [e H].
      destruct (encodeHttpsOutcallResponse (response req)) as [r|] eqn:R;
        [|discriminate].
      cbn [bind] in H.
      destruct (mapM encodeHttpsOutcallResponse (additionalResponses req))
        as [rs|] eqn:M; [|discriminate].
      split; [apply encodeHttpsOutcallResponse_known; eauto|].
      apply mapM_Forall2 in M. clear H.
      induction M as [|x y xs ys H _ IH]; constructor; [|exact IH].
      apply encodeHttpsOutcallResponse_known. eauto.
    + intros [K Ks]. apply encodeHttpsOutcallResponse_known in K.
      destruct K as [r ->]. cbn [bind].
      destruct (mapM_returns encodeHttpsOutcallResponse
                  (additionalResponses req)) as [rs ->].
      * intros x Hx. apply encodeHttpsOutcallResponse_known.
        rewrite Forall_forall in Ks. now apply Ks.
      * cbn [bind]. eauto.
  - intros e.
    destruct (encodeHttpsOutcallResponse (response req)) as [r|] eqn:R;
      [|discriminate].
    cbn [bind].
    destruct (mapM encodeHttpsOutcallResponse (additionalResponses req))
      as [rs|] eqn:M; [|discriminate].
    cbn [bind]. intros [= <-].
    cbn [MockPendingHttpsOutcall.request_id MockPendingHttpsOutcall.subnet_id
         enc_response additional_responses].
    split; [reflexivity|].
    split; [apply base64DecodePrincipal_base64EncodePrincipal|].
    split; [reflexivity|]. now apply mapM_Forall2.
  - intros err.
    destruct (encodeHttpsOutcallResponse (response req)) as [r|e'] eqn:R;
      cbn [bind].
    + destruct (mapM encodeHttpsOutcallResponse (additionalResponses req))
        as [rs|e''] eqn:M; cbn [bind]; [discriminate|].
      intros [= <-]. apply mapM_throws in M. destruct M as [x [_ Hx]].
      now apply encodeHttpsOutcallResponse_exception in Hx.
    + intros [= <-]. now apply encodeHttpsOutcallResponse_exception in R.
Qed.

Lemma decodeCanisterHttpMethod_value (method : string)
  (m : CanisterHttpMethod) :
  decodeCanisterHttpMethod method = Return m
  <-> method = canisterHttpMethodValue m.
Proof.
  split.
  - unfold decodeCanisterHttpMethod.
    repeat match goal with
           | |- context [String.eqb method ?token] =>
               destruct (String.eqb_spec method token) as [->|_];
               [intros [= <-]; reflexivity|]
           end.
    discriminate.
  - intros ->. destruct m; reflexivity.
Qed.

Lemma decodeHttpOutcall_returns (res : EncodedGetPendingHttpsOutcallsResponse)
  (outcall : GetPendingHttpsOutcallsResponse) :
  decodeHttpOutcall res = Return outcall ->
  base64DecodePrincipal (GetPendingHttpsOutcalls.subnet_id res)
  = Return (GetPendingHttpsOutcalls.subnetId outcall)
  /\ GetPendingHttpsOutcalls.requestId outcall
     = GetPendingHttpsOutcalls.request_id res
  /\ http_method res = canisterHttpMethodValue (httpMethod outcall)
  /\ url outcall = enc_url res
  /\ GetPendingHttpsOutcalls.headers outcall
     = map decodeHttpHeader (enc_headers res)
  /\ base64Decode (enc_body res)
     = Return (GetPendingHttpsOutcalls.body outcall)
  /\ maxResponseBytes outcall = max_response_bytes res.
Proof.
  unfold decodeHttpOutcall.
  destruct (base64DecodePrincipal _) as [s|]; [|discriminate]. cbn [bind].
  destruct (decodeCanisterHttpMethod _) as [m|] eqn:M; [|discriminate].
  cbn [bind].
  destruct (base64Decode _) as [b|]; [|discriminate]. cbn [bind].
  intros [= <-]. apply decodeCanisterHttpMethod_value in M.
  repeat split; try reflexivity. exact M.
Qed.

(** X13.  When [decodeGetPendingHttpsOutcallsResponse] returns, the result
    has one outcall per wire outcall, in the same order; each keeps the
    request id, the URL and the response limit, carries the headers as
    pairs, has the method whose value is the wire token, and a subnet id
    and a body that are the base64 decodings of the wire texts. *)
Theorem pending_outcalls_decoding
  (res : list EncodedGetPendingHttpsOutcallsResponse)
  (outcalls : list GetPendingHttpsOutcallsResponse) :
  decodeGetPendingHttpsOutcallsResponse res = Return outcalls ->
  Forall2
    (fun wire outcall =>
       base64DecodePrincipal (GetPendingHttpsOutcalls.subnet_id wire)
       = Return (GetPendingHttpsOutcalls.subnetId outcall)
       /\ GetPendingHttpsOutcalls.requestId outcall
          = GetPendingHttpsOutcalls.request_id wire
       /\ http_method wire = canisterHttpMethodValue (httpMethod outcall)
       /\ url outcall = enc_url wire
       /\ GetPendingHttpsOutcalls.headers outcall
          = map decodeHttpHeader (enc_headers wire)
       /\ base64Decode (enc_body wire)
          = Return (GetPendingHttpsOutcalls.body outcall)
       /\ maxResponseBytes outcall = max_response_bytes wire)
    res outcalls.
Proof.
  unfold decodeGetPendingHttpsOutcallsResponse. intros H.
  apply mapM_Forall2 in H.
  induction H as [|wire outcall ws os H _ IH]; constructor; [|exact IH].
  now apply decodeHttpOutcall_returns.
Qed.

Lemma pending_outcalls_decoding_witness :
  Forall2
    (fun wire outcall =>
       base64DecodePrincipal (GetPendingHttpsOutcalls.subnet_id wire)
       = Return (GetPendingHttpsOutcalls.subnetId outcall)
       /\ GetPendingHttpsOutcalls.requestId outcall
          = GetPendingHttpsOutcalls.request_id wire
       /\ http_method wire = canisterHttpMethodValue (httpMethod outcall)
       /\ url outcall = enc_url wire
       /\ GetPendingHttpsOutcalls.headers outcall
          = map decodeHttpHeader (enc_headers wire)
       /\ base64Decode (enc_body wire)
          = Return (GetPendingHttpsOutcalls.body outcall)
       /\ maxResponseBytes outcall = max_response_bytes wire)
    [{| GetPendingHttpsOutcalls.subnet_id := "AQID";
        GetPendingHttpsOutcalls.request_id := Num (Qc_of_Z 7);
        http_method := "POST";
        enc_url := "https://example.com";
        enc_headers := [{| name := "a"; value := "b" |}];
        enc_body := "";
        max_response_bytes := None |}]
    [{| GetPendingHttpsOutcalls.subnetId := fromUint8Array [x01; x02; x03];
        GetPendingHttpsOutcalls.requestId := Num (Qc_of_Z 7);
        httpMethod := POST;
        url := "https://example.com";
        GetPendingHttpsOutcalls.headers := [("a", "b")];
        GetPendingHttpsOutcalls.body := [];
        maxResponseBytes := None |}].
Proof.
  apply pending_outcalls_decoding. reflexivity.
Defined.

(** X14.  [decodeGetPendingHttpsOutcallsResponse] returns all the outcalls
    or none: the exception of the first wire outcall that cannot be decoded
    leaves the decoder, whatever comes before and after it; in particular
    one outcall with an unknown method (and a well-formed subnet id) among
    decodable ones makes the whole response fail with the error of that
    method. *)
Theorem pending_outcalls_all_or_nothing
  (pre : list EncodedGetPendingHttpsOutcallsResponse)
  (bad : EncodedGetPendingHttpsOutcallsResponse)
  (post : list EncodedGetPendingHttpsOutcallsResponse) :
  (forall wire, In wire pre -> exists outcall,
     decodeHttpOutcall wire = Return outcall) ->
  (forall e, decodeHttpOutcall bad = Throw e ->
     decodeGetPendingHttpsOutcallsResponse (pre ++ bad :: post) = Throw e)
  /\ (forall s,
        base64DecodePrincipal (GetPendingHttpsOutcalls.subnet_id bad)
        = Return s ->
        http_method bad <> "GET" ->
        http_method bad <> "POST" ->
        http_method bad <> "HEAD" ->
        decodeGetPendingHttpsOutcallsResponse (pre ++ bad :: post)
        = Throw (Error ("Unknown canister HTTP method: " ++ http_method bad))).
Proof.
  intros Hpre. unfold decodeGetPendingHttpsOutcallsResponse. split.
  - intros e He. now apply mapM_first_failure.
  - intros s Hs G P H. apply mapM_first_failure; [exact Hpre|].
    unfold decodeHttpOutcall, decodeCanisterHttpMethod.
    rewrite Hs. cbn [bind].
    unfold EncodedCanisterHttpMethod.GET, EncodedCanisterHttpMethod.POST,
      EncodedCanisterHttpMethod.HEAD.
    rewrite (eqb_of_neq _ _ G), (eqb_of_neq _ _ P), (eqb_of_neq _ _ H).
    reflexivity.
Qed.

Lemma pending_outcalls_all_or_nothing_witness :
  decodeGetPendingHttpsOutcallsResponse
    ([{| GetPendingHttpsOutcalls.subnet_id := "AQID";
         GetPendingHttpsOutcalls.request_id := Num (Qc_of_Z 7);
         http_method := "GET"; enc_url := "u"; enc_headers := [];
         enc_body := ""; max_response_bytes := None |}]
     ++ {| GetPendingHttpsOutcalls.subnet_id := "AQID";
           GetPendingHttpsOutcalls.request_id := Num (Qc_of_Z 8);
           http_method := "PUT"; enc_url := "u"; enc_headers := [];
           enc_body := ""; max_response_bytes := None |} :: [])
  = Throw (Error "Unknown canister HTTP method: PUT").
Proof.
  apply (proj2 (pending_outcalls_all_or_nothing
                  [{| GetPendingHttpsOutcalls.subnet_id := "AQID";
                      GetPendingHttpsOutcalls.request_id := Num (Qc_of_Z 7);
                      http_method := "GET"; enc_url := "u"; enc_headers := [];
                      enc_body := ""; max_response_bytes := None |}]
                  {| GetPendingHttpsOutcalls.subnet_id := "AQID";
                     GetPendingHttpsOutcalls.request_id := Num (Qc_of_Z 8);
                     http_method := "PUT"; enc_url := "u"; enc_headers := [];
                     enc_body := ""; max_response_bytes := None |}
                  []
                  (fun wire H =>
                     match H with
                     | or_introl E =>
                         ex_intro _ _ (f_equal decodeHttpOutcall (eq_sym E))
                     | or_intror F => match F with end
                     end))
           (fromUint8Array [x01; x02; x03]));
    [reflexivity|discriminate..].
Defined.

End HttpsOutcalls.

(** ** Submitting a call and awaiting it *)

Section SubmitAndAwait.

Import CanisterCall.
Import SubmitCanisterCall.
Import AwaitCanisterCall.

Lemma decodeEffectivePrincipal_encodeEffectivePrincipal
  (p : option EffectivePrincipal) :
  decodeEffectivePrincipal (encodeEffectivePrincipal p) = Return p.
Proof.
  destruct p as [[p|p]|];
    cbn [encodeEffectivePrincipal decodeEffectivePrincipal];
    try rewrite base64DecodePrincipal_base64EncodePrincipal; reflexivity.
Qed.




Lemma base64Encode_injective (a b : Uint8Array) :
  base64Encode a = base64Encode b -> a = b.
Proof.
  intros H.
  pose proof (Base64Facts.base64Decode_base64Encode a) as Ha.
  rewrite H, Base64Facts.base64Decode_base64Encode in Ha. congruence.
Qed.

Lemma base64EncodePrincipal_injective (p q : Principal) :
  base64EncodePrincipal p = base64EncodePrincipal q -> p = q.
Proof.
  intros H.
  pose proof (base64DecodePrincipal_base64EncodePrincipal p) as Hp.
  rewrite H, base64DecodePrincipal_base64EncodePrincipal in Hp. congruence.
Qed.

Lemma encodeEffectivePrincipal_injective (p q : option EffectivePrincipal) :
  encodeEffectivePrincipal p = encodeEffectivePrincipal q -> p = q.
Proof.
  intros H.
  pose proof (decodeEffectivePrincipal_encodeEffectivePrincipal p) as Hp.
  rewrite H, decodeEffectivePrincipal_encodeEffectivePrincipal in Hp.
  congruence.
Qed.

(** X16.  The wire form of a call determines the call: two requests with
    the same encoding have the same sender, canister, method, payload and
    effective principal.  And the wire field [effective_principal] is the
    sentinel ['None'] exactly when the request names no effective
    principal. *)
Theorem call_request_encoding_is_faithful :
  (forall a b : CanisterCallRequest,
     encodeSubmitCanisterCallRequest a = encodeSubmitCanisterCallRequest b ->
     a = b)
  /\ (forall req : CanisterCallRequest,
        effective_principal (encodeSubmitCanisterCallRequest req) = None_
        <-> effectivePrincipal req = None).
Proof.
  split.
  - intros [s1 c1 m1 p1 e1] [s2 c2 m2 p2 e2].
    unfold encodeSubmitCanisterCallRequest, encodeCanisterCallRequest.
    cbn [sender SubmitCanisterCall.canisterId method payload
         effectivePrincipal].
    intros [= Hs Hc Hm Hp He].
    apply base64EncodePrincipal_injective in Hs, Hc.
    apply base64Encode_injective in Hp.
    apply encodeEffectivePrincipal_injective in He.
    now subst.
  - intros req. unfold encodeSubmitCanisterCallRequest,
      encodeCanisterCallRequest. cbn [effective_principal].
    destruct (effectivePrincipal req) as [[p|p]|];
      cbn [encodeEffectivePrincipal]; split; intros H;
      try reflexivity; discriminate H.
Qed.

End SubmitAndAwait.

(** ** What the outcome of [start] tells *)

Section StartOutcome.

Import PocketIcServer.

Local Open Scope N_scope.

Lemma pollFrom_returns {A : Type} (cb : N -> Result A) (intervalMs : N) :
  forall (retries : nat) (now : N) (a : A) (t : N),
    pollFrom retries cb intervalMs now = (Return a, t) ->
    exists k : nat,
      (k <= retries)%nat
      /\ t = now + N.of_nat k * intervalMs
      /\ cb t = Return a
      /\ forall j : nat, (j < k)%nat ->
           exists e, cb (now + N.of_nat j * intervalMs) = Throw e.
Proof.
  induction retries as [|r IH]; intros now a t; cbn [pollFrom];
    destruct (cb now) as [a'|e] eqn:E.
  - intros [= <- <-]. exists 0%nat.
    repeat split; [lia|lia|exact E|intros j Hj; lia].
  - discriminate.
  - intros [= <- <-]. exists 0%nat.
    repeat split; [lia|lia|exact E|intros j Hj; lia].
  - intros H. apply IH in H. destruct H as (k & Hk & Ht & Hok & Hfail).
    exists (S k). repeat split; [lia|lia|exact Hok|].
    intros [|j] Hj.
    + exists e. rewrite <- E. f_equal. lia.
    + destruct (Hfail j) as [e' He']; [lia|]. exists e'. rewrite <- He'.
      f_equal. lia.
Qed.


Lemma readPort_returns (host : Host) (proc : ChildProcess) (now : N)
  (server : PocketIcServer) :
  readPort host proc now = Return server ->
  isNaN (parseInt (readFileAsString (portFile host now))) = false
  /\ server = new proc (parseInt (readFileAsString (portFile host now))).
Proof.
  unfold readPort.
  destruct (isNaN (parseInt (readFileAsString (portFile host now))));
    [discriminate|].
  intros [= <-]. split; reflexivity.
Qed.

Lemma readPort_throws (host : Host) (proc : ChildProcess) (now : N)
  (e : JsError) :
  readPort host proc now = Throw e ->
  isNaN (parseInt (readFileAsString (portFile host now))) = true
  /\ e = BinTimeoutError.
Proof.
  unfold readPort.
  destruct (isNaN (parseInt (readFileAsString (portFile host now))));
    [|discriminate].
  intros [= <-]. split; reflexivity.
Qed.

(** X17.  When [start] resolves, the binary was in place; the promise
    settled at a multiple of the poll interval within the timeout, at the
    first attempt that found a number in the readiness file; the server
    wraps the process that was spawned, its URL is [http://127.0.0.1:]
    followed by that number as JavaScript prints it, and the output streams
    of the process go to the parent only where the options ask for it.
    ([poll] and [readFileAsString] are those of the design document.) *)
Theorem start_resolves_only_when_ready (options : StartServerOptions)
  (host : Host) (server : PocketIcServer) (t : N) :
  start options host = (Return server, t) ->
  binExists host = true
  /\ t mod POLL_INTERVAL_MS = 0
  /\ t <= POLL_TIMEOUT_MS
  /\ isNaN (parseInt (readFileAsString (portFile host t))) = false
  /\ (forall k, k * POLL_INTERVAL_MS < t ->
        isNaN (parseInt (readFileAsString (portFile host (k * POLL_INTERVAL_MS))))
        = true)
  /\ serverProcess server = spawn options host
  /\ getUrl server
     = ("http://127.0.0.1:"
        ++ Number_toString (parseInt (readFileAsString (portFile host t))))%string
  /\ (stdout (serverProcess server) = ParentStream
      <-> showRuntimeLogs options = Some true)
  /\ (stderr (serverProcess server) = ParentStream
      <-> showCanisterLogs options = Some true).
Proof.
  unfold start. destruct (binExists host); cbn [negb]; [|discriminate].
  unfold poll, POLL_INTERVAL_MS, POLL_TIMEOUT_MS.
  change (N.to_nat (30000 / 20)) with 1500%nat.
  intros H. apply pollFrom_returns in H.
  destruct H as (k & Hk & Ht & Hok & Hfail).
  apply readPort_returns in Hok. destruct Hok as [Hnum ->].
  split; [reflexivity|]. split; [lia|]. split; [lia|].
  split; [exact Hnum|]. split; [|split; [reflexivity|split; [reflexivity|]]].
  - intros j Hj. destruct (Hfail (N.to_nat j)) as [e He]; [lia|].
    replace (0 + N.of_nat (N.to_nat j) * 20) with (j * 20) in He by lia.
    now apply readPort_throws in He.
  - cbn [serverProcess new spawn stdout stderr]. split.
    + destruct (showRuntimeLogs options) as [[|]|]; cbn [truthy]; split;
        intros H; try reflexivity; discriminate H.
    + destruct (showCanisterLogs options) as [[|]|]; cbn [truthy]; split;
        intros H; try reflexivity; discriminate H.
Qed.

Lemma start_resolves_only_when_ready_witness :
  binExists readyHost = true
  /\ snd (start quietOptions readyHost) mod POLL_INTERVAL_MS = 0.
Proof.
  destruct (start_resolves_only_when_ready quietOptions readyHost
              (match fst (start quietOptions readyHost) with
               | Return server => server
               | Throw _ => exampleServer
               end)
              (snd (start quietOptions readyHost)))
    as (Hbin & Hmod & _).
  - vm_compute. reflexivity.
  - split; [exact Hbin|exact Hmod].
Defined.



End StartOutcome.

(** ** Invariants of a running server *)

Section ServerInvariants.

Import PocketIcServer.

Local Open Scope list_scope.

Lemma settle_length (p : nat) (outcome : PromiseState)
  (ps : list PromiseState) :
  List.length (settle p outcome ps) = List.length ps.
Proof.
  revert p. induction ps as [|x ps IH]; intros p.
  - destruct p; reflexivity.
  - destruct p as [|p]; cbn [settle List.length]; [reflexivity|].
    now rewrite IH.
Qed.

Lemma emitExit_length (l : list ExitListener) (ps : list PromiseState) :
  List.length (emitExit l ps) = List.length ps.
Proof.
  revert ps. induction l as [|[p] l IH]; intros ps; [reflexivity|].
  cbn [emitExit]. now rewrite IH, settle_length.
Qed.

Lemma emitError_length (l : list ErrorListener) (error : JsError)
  (ps : list PromiseState) :
  List.length (fst (emitError l error ps)) = List.length ps.
Proof.
  revert ps. induction l as [|[b|p] l IH]; intros ps; cbn [emitError fst];
    [reflexivity..|].
  now rewrite IH, settle_length.
Qed.

(** What [stop] does to the listeners and to the number of promises. *)
Lemma stop_shape (answer : KillOutcome) (r : Runtime) :
  exitListeners (process (fst (stop answer r)))
  = exitListeners (process r) ++ [resolveOnExit (List.length (promises r))]
  /\ errorListeners (process (fst (stop answer r)))
     = errorListeners (process r) ++ [rejectOnError (List.length (promises r))]
  /\ List.length (promises (fst (stop answer r)))
     = S (List.length (promises r))
  /\ exited (process (fst (stop answer r))) = exited (process r).
Proof.
  assert (L : List.length (promises r ++ [Pending])
              = S (List.length (promises r)))
    by (rewrite length_app; cbn [List.length]; lia).
  unfold stop, kill. cbn [exited onError onExit errorListeners].
  destruct (exited (process r)) eqn:X.
  - cbn [fst process promises exitListeners errorListeners exited onError
         onExit]. repeat split; [exact L|exact X].
  - destruct answer as [|error].
    + cbn [fst process promises exitListeners errorListeners exited onError
           onExit markKilled]. repeat split; [exact L|exact X].
    + pose proof (emitError_length
                    (errorListeners (process r)
                     ++ [rejectOnError (List.length (promises r))])
                    error (promises r ++ [Pending])) as E.
      destruct (emitError _ error (promises r ++ [Pending])) as [ps thrown].
      cbn [fst] in E.
      cbn [fst process promises exitListeners errorListeners exited onError
           onExit].
      repeat split; [|exact X].
      destruct thrown; [rewrite settle_length|]; congruence.
Qed.

Lemma processErrors_shape (error : JsError) (r : Runtime) :
  process (processErrors error r) = process r
  /\ List.length (promises (processErrors error r))
     = List.length (promises r).
Proof.
  unfold processErrors.
  pose proof (emitError_length (errorListeners (process r)) error
                (promises r)) as E.
  destruct (emitError _ error (promises r)) as [ps thrown].
  cbn [fst] in E. cbn [process promises]. split; [reflexivity|exact E].
Qed.

Lemma listeners_grow_with_promises (r0 r : Runtime) :
  steps r0 r ->
  List.length (exitListeners (process r)) + List.length (promises r0)
  = List.length (exitListeners (process r0)) + List.length (promises r)
  /\ List.length (errorListeners (process r)) + List.length (promises r0)
     = List.length (errorListeners (process r0)) + List.length (promises r).
Proof.
  intros Hsteps. induction Hsteps as [r|r1 r2 r3 Hsteps [IHx IHe] Hstep].
  - split; reflexivity.
  - destruct Hstep as [r answer|r Hrun|r error Hrun].
    + destruct (stop_shape answer r) as (Hx & He & Hp & _).
      rewrite Hx, He, Hp, !length_app. cbn [List.length]. lia.
    + unfold processExits.
      cbn [process promises markExited exitListeners errorListeners].
      rewrite emitExit_length. lia.
    + destruct (processErrors_shape error r) as [Hproc Hp].
      rewrite Hproc, Hp. lia.
Qed.

(** X19.  Every [stop()] leaves one more ['exit'] listener and one more
    ['error'] listener on the process, and nothing ever removes one: at any
    time the process carries the listeners it had when the server was made
    plus one of each kind per promise that [stop] has returned. *)
Theorem listeners_accumulate (server : PocketIcServer) (r : Runtime) :
  steps (boot server) r ->
  List.length (exitListeners (process r))
  = List.length (exitListeners (serverProcess server))
    + List.length (promises r)
  /\ List.length (errorListeners (process r))
     = List.length (errorListeners (serverProcess server))
       + List.length (promises r).
Proof.
  intros H. apply listeners_grow_with_promises in H.
  cbn [boot process promises List.length] in H. lia.
Qed.

Lemma listeners_accumulate_witness :
  List.length (exitListeners (process (fst (stop Delivered stoppedExample))))
  = List.length (exitListeners (serverProcess exampleServer))
    + List.length (promises (fst (stop Delivered stoppedExample))).
Proof.
  apply (listeners_accumulate exampleServer).
  apply (steps_step _ stoppedExample); [|apply step_stop].
  apply (steps_step _ (fst (stop Delivered (boot exampleServer)))).
  - apply (steps_step _ (boot exampleServer)); [apply steps_refl|].
    apply step_stop.
  - apply step_exit. reflexivity.
Defined.

(** Every promise has its ['exit'] listener. *)
Lemma every_promise_listens (r0 r : Runtime) :
  promises r0 = [] ->
  steps r0 r ->
  forall i, (i < List.length (promises r))%nat ->
    In (resolveOnExit i) (exitListeners (process r)).
Proof.
  intros Hinit Hsteps. induction Hsteps as [r|r1 r2 r3 Hsteps IH Hstep].
  - rewrite Hinit. cbn [List.length]. lia.
  - specialize (IH Hinit).
    destruct Hstep as [r answer|r Hrun|r error Hrun]; intros i Hi.
    + destruct (stop_shape answer r) as (Hx & _ & Hp & _).
      rewrite Hx. rewrite Hp in Hi. apply in_or_app.
      destruct (Nat.eq_dec i (List.length (promises r))) as [->|Hne].
      * right. now left.
      * left. apply IH. lia.
    + unfold processExits in *.
      cbn [process promises markExited exitListeners] in *.
      rewrite emitExit_length in Hi. now apply IH.
    + destruct (processErrors_shape error r) as [Hproc Hp].
      rewrite Hproc. rewrite Hp in Hi. now apply IH.
Qed.

Lemma settle_not_pending (p i : nat) (outcome : PromiseState)
  (ps : list PromiseState) :
  nth_error ps i <> Some Pending ->
  outcome <> Pending ->
  nth_error (settle p outcome ps) i <> Some Pending.
Proof.
  intros H Ho. rewrite nth_error_settle. destruct (Nat.eqb i p); [|exact H].
  destruct (nth_error ps i) as [[| |]|]; congruence.
Qed.

Lemma emitExit_not_pending (l : list ExitListener) (ps : list PromiseState)
  (i : nat) :
  nth_error ps i <> Some Pending ->
  nth_error (emitExit l ps) i <> Some Pending.
Proof.
  revert ps. induction l as [|[p] l IH]; intros ps H; [exact H|].
  cbn [emitExit]. apply IH. apply settle_not_pending; [exact H|discriminate].
Qed.

Lemma emitExit_settles (l : list ExitListener) (ps : list PromiseState)
  (i : nat) :
  In (resolveOnExit i) l ->
  nth_error (emitExit l ps) i <> Some Pending.
Proof.
  revert ps. induction l as [|[p] l IH]; intros ps; [contradiction|].
  cbn [emitExit]. intros [[= ->]|Hin]; [|now apply IH].
  apply emitExit_not_pending. rewrite nth_error_settle, Nat.eqb_refl.
  destruct (nth_error ps i) as [[| |]|]; discriminate.
Qed.

(** X20.  The end of the process leaves no promise pending: whatever calls
    of [stop] and whatever errors came before, once the running process
    emits ['exit'] every promise that [stop] has returned so far is
    fulfilled or rejected. *)
Theorem exit_settles_every_promise (server : PocketIcServer) (r : Runtime)
  (promise : nat) :
  steps (boot server) r ->
  exited (process r) = false ->
  promiseState (processExits r) promise <> Some Pending.
Proof.
  intros Hsteps _. unfold promiseState, processExits. cbn [promises].
  destruct (Nat.lt_ge_cases promise (List.length (promises r))) as [Hlt|Hge].
  - apply emitExit_settles.
    now apply (every_promise_listens (boot server) r eq_refl Hsteps).
  - assert (N : nth_error (emitExit (exitListeners (process r)) (promises r))
                  promise = None)
      by (apply nth_error_None; now rewrite emitExit_length).
    rewrite N. discriminate.
Qed.

Lemma exit_settles_every_promise_witness :
  promiseState (processExits (fst (stop Delivered (boot exampleServer)))) 0
  <> Some Pending.
Proof.
  apply (exit_settles_every_promise exampleServer).
  - apply (steps_step _ (boot exampleServer)); [apply steps_refl|].
    apply step_stop.
  - reflexivity.
Defined.

(** The exception of the ['error'] listener that [start] registers. *)
Lemma emitError_start_listener (b : bool) (rest : list ErrorListener)
  (error : JsError) (ps : list PromiseState) :
  emitError (throwStartError b :: rest) error ps
  = (ps, Some (if b then BinStartMacOSArmError else BinStartError)).
Proof. reflexivity. Qed.

Lemma nth_error_snoc_rejected (ps : list PromiseState) (i : nat)
  (reason : JsError) :
  nth_error (ps ++ [Pending]) i = Some (Rejected reason) ->
  nth_error ps i = Some (Rejected reason).
Proof.
  destruct (Nat.lt_ge_cases i (List.length ps)) as [Hlt|Hge].
  - now rewrite nth_error_app1.
  - rewrite nth_error_app2 by exact Hge.
    destruct (i - List.length ps) as [|[|n]]; cbn; discriminate.
Qed.

Lemma emitExit_rejected (l : list ExitListener) (ps : list PromiseState)
  (i : nat) (reason : JsError) :
  nth_error (emitExit l ps) i = Some (Rejected reason) ->
  nth_error ps i = Some (Rejected reason).
Proof.
  revert ps. induction l as [|[p] l IH]; intros ps; [trivial|].
  cbn [emitExit]. intros H. apply IH in H. rewrite nth_error_settle in H.
  destruct (Nat.eqb i p); [|exact H].
  destruct (nth_error ps i) as [[| |]|]; congruence.
Qed.

Lemma start_listener_stays_first (b : bool) (r0 r : Runtime) :
  (exists rest, errorListeners (process r0) = throwStartError b :: rest) ->
  promises r0 = [] ->
  uncaught r0 = [] ->
  steps r0 r ->
  (exists rest, errorListeners (process r) = throwStartError b :: rest)
  /\ (forall i reason,
        promiseState r i = Some (Rejected reason) ->
        reason = if b then BinStartMacOSArmError else BinStartError)
  /\ (forall e, In e (uncaught r) ->
        e = if b then BinStartMacOSArmError else BinStartError).
Proof.
  intros Hfirst Hp Hu Hsteps.
  induction Hsteps as [r|r1 r2 r3 Hsteps IH Hstep].
  - split; [exact Hfirst|]. unfold promiseState. rewrite Hp, Hu. split.
    + intros [|i] reason; discriminate.
    + intros e [].
  - destruct (IH Hfirst Hp Hu) as ([rest Hl] & Hrej & Hunc).
    destruct Hstep as [r answer|r Hrun|r error Hrun].
    + split; [|split].
      * destruct (stop_shape answer r) as (_ & He & _). rewrite He, Hl.
        eexists. reflexivity.
      * intros i reason. unfold promiseState, stop, kill.
        cbn [exited onError onExit errorListeners]. rewrite Hl.
        cbn [app].
        destruct (exited (process r)); [|destruct answer as [|error]];
          try rewrite emitError_start_listener;
          cbn [fst promises]; intros H.
        -- apply nth_error_snoc_rejected in H. now apply (Hrej i).
        -- apply nth_error_snoc_rejected in H. now apply (Hrej i).
        -- rewrite nth_error_settle in H.
           destruct (Nat.eqb i (List.length (promises r))).
           ++ destruct (nth_error (promises r ++ [Pending]) i)
                as [[| |reason']|] eqn:E; try discriminate H.
              ** now injection H as <-.
              ** injection H as <-. apply nth_error_snoc_rejected in E.
                 now apply (Hrej i).
           ++ apply nth_error_snoc_rejected in H. now apply (Hrej i).
      * unfold stop. destruct (kill _ _ _) as [[proc ps] thrown].
        cbn [fst uncaught]. exact Hunc.
    + unfold processExits, promiseState.
      cbn [process promises uncaught markExited errorListeners].
      split; [eauto|]. split; [|exact Hunc].
      intros i reason H. apply emitExit_rejected in H. now apply (Hrej i).
    + unfold processErrors, promiseState. rewrite Hl.
      rewrite emitError_start_listener. cbn [process promises uncaught].
      split; [eauto|]. split; [exact Hrej|].
      intros e He. apply in_app_or in He. destruct He as [He|[<-|[]]].
      * now apply Hunc.
      * reflexivity.
Qed.

(** X21.  On a server that [start] has made, the ['error'] listener of
    [start] is called before any listener of [stop] and throws, so the
    [reject(error)] of [stop] is never reached: every rejected promise of
    [stop], and every exception that escapes from an event, carries the
    start error ([BinStartMacOSArmError] on macOS ARM, [BinStartError]
    elsewhere) and never the error that the process reported. *)
Theorem rejections_carry_the_start_error (options : StartServerOptions)
  (host : Host) (port : number) (r : Runtime) :
  steps (boot (new (spawn options host) port)) r ->
  (forall promise reason,
     promiseState r promise = Some (Rejected reason) ->
     reason = if isArm host && isDarwin host
              then BinStartMacOSArmError else BinStartError)
  /\ (forall e, In e (uncaught r) ->
        e = if isArm host && isDarwin host
            then BinStartMacOSArmError else BinStartError).
Proof.
  intros H.
  apply (start_listener_stays_first (isArm host && isDarwin host)) in H;
    [tauto|cbn; eauto|reflexivity..].
Qed.

Lemma rejections_carry_the_start_error_witness :
  promiseState
    (fst (stop (Refused (Error "EPERM"))
            (boot (new (spawn quietOptions readyHost) (of_Z 8080)))))
    0 = Some (Rejected BinStartError)
  /\ BinStartError = (if isArm readyHost && isDarwin readyHost
                      then BinStartMacOSArmError else BinStartError).
Proof.
  split; [reflexivity|].
  apply (proj1 (rejections_carry_the_start_error quietOptions readyHost
                  (of_Z 8080)
                  (fst (stop (Refused (Error "EPERM"))
                          (boot (new (spawn quietOptions readyHost)
                                     (of_Z 8080)))))
                  (steps_step _ _ _ (steps_refl _) (step_stop _ _)))
           0%nat).
  reflexivity.
Defined.

End ServerInvariants.

(** ** Times on the whole minute *)

Section ScaledIntegers.

Local Open Scope Q_scope.

Lemma inject_Z_pow2_nonzero (j : Z) : (0 <= j)%Z -> ~ inject_Z (2 ^ j) == 0.
Proof.
  intros Hj H.
  assert (Hpos : (0 < 2 ^ j)%Z) by (apply Z.pow_pos_nonneg; lia).
  apply (Qlt_not_eq 0 (inject_Z (2 ^ j))).
  - change 0 with (inject_Z 0). now rewrite <- Zlt_Qlt.
  - now symmetry.
Qed.

Lemma two_pow_difference (s j : Z) :
  (0 <= s)%Z -> (0 <= j)%Z ->
  two_pow (s - j) == inject_Z (2 ^ s) / inject_Z (2 ^ j).
Proof.
  intros Hs Hj. unfold two_pow.
  replace (s - j)%Z with (s + - j)%Z by lia.
  rewrite Qpower_plus by discriminate.
  rewrite Qpower_opp, (Zpower_Qpower 2 s Hs), (Zpower_Qpower 2 j Hj).
  reflexivity.
Qed.

(** An integer [m * 2^s] with [m] below 2^53 in magnitude is a whole
    multiple of the unit in its last place. *)
Lemma round_unbounded_scaled (m s : Z) :
  (0 <= s)%Z -> (Z.abs m < 2 ^ 53)%Z ->
  round_unbounded (inject_Z (m * 2 ^ s)) == inject_Z (m * 2 ^ s).
Proof.
  intros Hs Hm. unfold round_unbounded.
  destruct (Qeq_bool (inject_Z (m * 2 ^ s)) 0) eqn:Z0.
  - apply Qeq_bool_iff in Z0. now rewrite Z0.
  - assert (Hnz : m <> 0%Z).
    { intros ->. rewrite Z.mul_0_l in Z0. discriminate Z0. }
    assert (H2 : (0 < 2 ^ s)%Z) by (apply Z.pow_pos_nonneg; lia).
    assert (Habs : Z.abs (m * 2 ^ s) = (Z.abs m * 2 ^ s)%Z)
      by (rewrite Z.abs_mul, (Z.abs_eq (2 ^ s)); lia).
    assert (Ha : (0 < Z.abs (m * 2 ^ s))%Z) by (rewrite Habs; nia).
    unfold ulp_exponent.
    change (Qabs (inject_Z (m * 2 ^ s)))
      with (inject_Z (Z.abs (m * 2 ^ s))).
    rewrite (ilog2_integer _ Ha), Habs.
    rewrite Z.log2_mul_pow2 by lia.
    assert (HL : (0 <= Z.log2 (Z.abs m) < 53)%Z).
    { split; [apply Z.log2_nonneg|]. apply Z.log2_lt_pow2; lia. }
    rewrite Z.max_l by lia.
    set (j := (52 - Z.log2 (Z.abs m))%Z).
    replace (s + Z.log2 (Z.abs m) - 52)%Z with (s - j)%Z by (unfold j; lia).
    assert (Hj : (0 <= j)%Z) by (unfold j; lia).
    pose proof (inject_Z_pow2_nonzero j Hj) as Pj.
    pose proof (inject_Z_pow2_nonzero s Hs) as Ps.
    assert (E : inject_Z (m * 2 ^ s) / two_pow (s - j) == inject_Z (m * 2 ^ j)).
    { rewrite (two_pow_difference s j Hs Hj), !inject_Z_mult. field.
      split; assumption. }
    rewrite (round_half_even_integer _ _ E).
    rewrite (two_pow_difference s j Hs Hj), !inject_Z_mult. field. exact Pj.
Qed.

Lemma scaled_below_MAX_VALUE (m s : Z) :
  (0 <= s <= 971)%Z -> (Z.abs m < 2 ^ 53)%Z ->
  Qabs (inject_Z (m * 2 ^ s)) <= MAX_VALUE.
Proof.
  intros Hs Hm.
  change (Qabs (inject_Z (m * 2 ^ s))) with (inject_Z (Z.abs (m * 2 ^ s))).
  assert (H2 : (0 < 2 ^ s)%Z) by (apply Z.pow_pos_nonneg; lia).
  assert (Hp : (2 ^ s <= 2 ^ 971)%Z) by (apply Z.pow_le_mono_r; lia).
  apply Qle_trans with (inject_Z ((2 ^ 53 - 1) * 2 ^ 971)).
  - rewrite <- Zle_Qle. rewrite Z.abs_mul, (Z.abs_eq (2 ^ s)) by lia.
    apply Z.mul_le_mono_nonneg; lia.
  - apply Qle_bool_iff. vm_compute. reflexivity.
Qed.

Lemma of_Z_scaled (m s : Z) :
  (0 <= s <= 971)%Z -> (Z.abs m < 2 ^ 53)%Z ->
  of_Z (m * 2 ^ s) = Num (Qc_of_Z (m * 2 ^ s)).
Proof.
  intros Hs Hm. unfold of_Z, round64.
  pose proof (round_unbounded_scaled m s (proj1 Hs) Hm) as E.
  assert (B : Qle_bool (Qabs (round_unbounded (inject_Z (m * 2 ^ s))))
                MAX_VALUE = true).
  { apply Qle_bool_iff. rewrite E. now apply scaled_below_MAX_VALUE. }
  rewrite B. f_equal. apply Qc_is_canon. cbn [this Q2Qc Qc_of_Z].
  now rewrite !Qred_correct.
Qed.

Lemma representable_scaled (m s : Z) :
  (0 <= s <= 971)%Z -> (Z.abs m < 2 ^ 53)%Z ->
  representable (Qc_of_Z (m * 2 ^ s)).
Proof.
  intros Hs Hm. unfold representable, Qc_of_Z. cbn [this Q2Qc].
  rewrite Qred_inject_Z. now apply of_Z_scaled.
Qed.

End ScaledIntegers.

Section WholeMinutes.

Local Open Scope Qc_scope.

(** X22.  A time on the whole minute is sent exactly: for every whole number
    of minutes within 306 million of the epoch (some 580 years either way),
    the nanoseconds that [encodeSetTimeRequest] sends for it are the exact
    product, with no rounding, and reading them back with
    [decodeGetTimeResponse] gives the same milliseconds.  The midnight of a
    local date, which the NNS proxy test sets, is such a time. *)
Theorem whole_minutes_are_set_exactly (minutes : Z) :
  (Z.abs minutes * 29296875 < 2 ^ 53)%Z ->
  SetTime.encodeSetTimeRequest
    {| SetTime.millisSinceEpoch := of_Z (minutes * 60000) |}
  = {| SetTime.nanos_since_epoch :=
         Num (Qc_of_Z (minutes * 60000 * 1000000)) |}
  /\ SetTime.readBack (of_Z (minutes * 60000)) = of_Z (minutes * 60000).
Proof.
  intros H.
  assert (Ht : (Z.abs (minutes * 60000) < 2 ^ 53)%Z) by lia.
  assert (Hm : (Z.abs (minutes * 29296875) < 2 ^ 53)%Z) by lia.
  assert (P : Qc_of_Z (minutes * 60000) * Qc_of_Z 1000000
              = Qc_of_Z (minutes * 60000 * 1000000)).
  { apply Qc_is_canon. cbn [this Q2Qc Qc_of_Z Qcmult].
    rewrite !Qred_correct. rewrite inject_Z_mult. reflexivity. }
  assert (R : representable (Qc_of_Z (minutes * 60000) * Qc_of_Z 1000000)).
  { rewrite P.
    replace (minutes * 60000 * 1000000)%Z
      with (minutes * 29296875 * 2 ^ 11)%Z by lia.
    apply representable_scaled; [lia|exact Hm]. }
  rewrite (of_Z_safe _ Ht). split.
  - unfold SetTime.encodeSetTimeRequest. cbn [SetTime.millisSinceEpoch].
    rewrite of_Z_million. cbn [mul]. rewrite R. now rewrite P.
  - apply readBack_exact; [now apply representable_safe_integer|exact R].
Qed.

Lemma whole_minutes_are_set_exactly_witness :
  SetTime.encodeSetTimeRequest
    {| SetTime.millisSinceEpoch := of_Z (28849020 * 60000) |}
  = {| SetTime.nanos_since_epoch :=
         Num (Qc_of_Z (28849020 * 60000 * 1000000)) |}
  /\ SetTime.readBack (of_Z (28849020 * 60000)) = of_Z (28849020 * 60000).
Proof.
  apply (whole_minutes_are_set_exactly 28849020).
  vm_compute. reflexivity.
Defined.

End WholeMinutes.
